(** * Appwt: signaling server and walkie-talkie client

    A shallow embedding of the two programs of the repository:

    - the signaling server ([src/unnamed/part_000]): the [activeRooms]
      registry and the socket.io event handlers registered inside
      [io.on('connection', ...)];
    - the browser client ([src/unnamed/part_001]): the methods of
      [class WalkieTalkieApp] that drive peer links, joining and
      push-to-talk.

    JavaScript values that cross the wire are [jsval]s; a field or argument
    that is missing is [JUndefined].  [Map] and [Set] are insertion ordered
    in JavaScript and the server turns a [Set] into an array
    ([Array.from]), so both are modelled as lists in insertion order. *)

From Stdlib Require Import Ascii String.
From stdpp Require Import base list strings gmap.

Open Scope string_scope.
Open Scope list_scope.

Set Warnings "-clear-no-such-hyp".

(** ** JavaScript values *)

Inductive jsval :=
| JUndefined
| JBool (b : bool)
| JStr (s : string).

#[global] Instance jsval_eq_dec : EqDecision jsval.
Proof. solve_decision. Defined.

(** ** [Set]: a list without repetition, in insertion order *)

Module JsSet.
Section ops.
Context {A : Type} `{EqDecision A}.

Definition has (x : A) (s : list A) : bool := bool_decide (x ∈ s).

(** [s.add(x)]: appended at the end unless already present. *)
Definition add (x : A) (s : list A) : list A :=
  if has x s then s else s ++ [x].

(** [s.delete(x)]. *)
Definition delete (x : A) (s : list A) : list A :=
  filter (λ y, y ≠ x) s.

Definition size (s : list A) : nat := length s.
End ops.
End JsSet.

(** ** [Map]: an association list, in insertion order *)

Module JsMap.
Section ops.
Context {K V : Type} `{EqDecision K}.

Fixpoint get (k : K) (m : list (K * V)) : option V :=
  match m with
  | [] => None
  | (k', v) :: m' => if decide (k = k') then Some v else get k m'
  end.

Definition has (k : K) (m : list (K * V)) : bool :=
  match get k m with Some _ => true | None => false end.

(** [m.set(k, v)]: an existing key keeps its position. *)
Fixpoint set (k : K) (v : V) (m : list (K * V)) : list (K * V) :=
  match m with
  | [] => [(k, v)]
  | (k', v') :: m' =>
      if decide (k = k') then (k, v) :: m' else (k', v') :: set k v m'
  end.

(** [m.delete(k)]. *)
Definition delete (k : K) (m : list (K * V)) : list (K * V) :=
  filter (λ p, p.1 ≠ k) m.

(** [m.get(k).f()] for a method [f] that mutates the stored object in
    place: the entry keeps its position, the others are untouched. *)
Definition mutate (k : K) (f : V → V) (m : list (K * V)) : list (K * V) :=
  (λ p, if decide (p.1 = k) then (p.1, f p.2) else p) <$> m.
End ops.
End JsMap.

(** ** The signaling server *)

Module Server.

(** The object a client sends with [offer], [answer], [ice-candidate] and
    [user-talking]; a field the sender left out reads as [JUndefined]. *)
Record payload := {
  room : jsval;
  offer : jsval;
  answer : jsval;
  candidate : jsval;
  from : jsval;
  to : jsval;
  userId : jsval;
  isTalking : jsval
}.

(** What the server emits to a session. *)
Inductive notice :=
| user_connected (userId : jsval)
| room_users (users : list jsval)
| relayed_offer (offer from : jsval)
| relayed_answer (answer from : jsval)
| relayed_ice_candidate (candidate from : jsval)
| relayed_user_talking (userId isTalking : jsval)
| user_disconnected (userId : jsval).

#[global] Instance notice_eq_dec : EqDecision notice.
Proof. solve_decision. Defined.

(** A delivery: the session ([socket.id]) that receives, and what. *)
Definition delivery : Type := string * notice.

(** [activeRooms] is the registry of the program.  [sio_rooms] is
    socket.io's own table of rooms (room name to the sessions joined to
    it), which [socket.join], [socket.leave] and [socket.to(..).emit] read
    and write; socket.io is a library, modelled by its documented
    behaviour. *)
Record server := {
  activeRooms : list (jsval * list jsval);
  sio_rooms : list (jsval * list string)
}.

Definition init : server := {| activeRooms := []; sio_rooms := [] |}.

(** [Array.from(activeRooms.get(roomId) || [])] *)
Definition membersOf (roomId : jsval) (ar : list (jsval * list jsval)) : list jsval :=
  default [] (JsMap.get roomId ar).

(** *** socket.io rooms *)

(** [socket.join(r)] *)
Definition sio_join (sid : string) (r : jsval) (t : list (jsval * list string)) :=
  let t1 := if JsMap.has r t then t else JsMap.set r [] t in
  JsMap.mutate r (JsSet.add sid) t1.

(** [socket.leave(r)]: a room left without sessions is dropped. *)
Definition sio_leave (sid : string) (r : jsval) (t : list (jsval * list string)) :=
  match JsMap.get r t with
  | Some _ =>
      let t1 := JsMap.mutate r (JsSet.delete sid) t in
      if decide (JsSet.size (default [] (JsMap.get r t1)) = 0)
      then JsMap.delete r t1 else t1
  | None => t
  end.

(** What socket.io does to its rooms when a session closes, before the
    [disconnect] event is fired: the session leaves every room. *)
Definition sio_leave_all (sid : string) (t : list (jsval * list string)) :=
  filter (λ p, p.2 ≠ [])
         ((λ p : jsval * list string, (p.1, JsSet.delete sid p.2)) <$> t).

(** The sessions joined to room [r]. *)
Definition sio_sessions (r : jsval) (t : list (jsval * list string)) : list string :=
  default [] (JsMap.get r t).

(** The recipients of [socket.to(r).emit(..)]: every session joined to [r]
    except the sender. *)
Definition sio_to (sid : string) (r : jsval) (t : list (jsval * list string)) : list string :=
  filter (λ x, x ≠ sid) (sio_sessions r t).

(** [socket.to(r).emit(n)] *)
Definition to_emit (sid : string) (r : jsval) (n : notice)
    (t : list (jsval * list string)) : list delivery :=
  (λ x, (x, n)) <$> sio_to sid r t.

(** *** The handlers *)

(** [io.on('connection', ...)]: socket.io puts a new session in the room
    named by its own id; the program only registers the handlers. *)
Definition on_connection (sid : string) (st : server) : server * list delivery :=
  ({| activeRooms := activeRooms st;
      sio_rooms := sio_join sid (JStr sid) (sio_rooms st) |}, []).

(** [socket.on('join-room', (roomId, userId) => ...)] *)
Definition on_join_room (sid : string) (roomId userId : jsval) (st : server)
    : server * list delivery :=
  let ar1 := if negb (JsMap.has roomId (activeRooms st))
             then JsMap.set roomId [] (activeRooms st)
             else activeRooms st in
  let ar2 := JsMap.mutate roomId (JsSet.add userId) ar1 in
  let sio := sio_join sid roomId (sio_rooms st) in
  let out1 := to_emit sid roomId (user_connected userId) sio in
  let users := membersOf roomId ar2 in
  ({| activeRooms := ar2; sio_rooms := sio |},
   out1 ++ [(sid, room_users users)]).

(** [socket.on('offer', (data) => ...)] *)
Definition on_offer (sid : string) (data : payload) (st : server)
    : server * list delivery :=
  (st, to_emit sid (room data) (relayed_offer (offer data) (from data)) (sio_rooms st)).

(** [socket.on('answer', (data) => ...)] *)
Definition on_answer (sid : string) (data : payload) (st : server)
    : server * list delivery :=
  (st, to_emit sid (room data) (relayed_answer (answer data) (from data)) (sio_rooms st)).

(** [socket.on('ice-candidate', (data) => ...)] *)
Definition on_ice_candidate (sid : string) (data : payload) (st : server)
    : server * list delivery :=
  (st, to_emit sid (room data)
         (relayed_ice_candidate (candidate data) (from data)) (sio_rooms st)).

(** [socket.on('user-talking', (data) => ...)] *)
Definition on_user_talking (sid : string) (data : payload) (st : server)
    : server * list delivery :=
  (st, to_emit sid (room data)
         (relayed_user_talking (userId data) (isTalking data)) (sio_rooms st)).

(** [socket.on('leave-room', (roomId, userId) => ...)] *)
Definition on_leave_room (sid : string) (roomId userId : jsval) (st : server)
    : server * list delivery :=
  let ar :=
    if JsMap.has roomId (activeRooms st) then
      let ar1 := JsMap.mutate roomId (JsSet.delete userId) (activeRooms st) in
      if decide (JsSet.size (membersOf roomId ar1) = 0)
      then JsMap.delete roomId ar1 else ar1
    else activeRooms st in
  let sio := sio_leave sid roomId (sio_rooms st) in
  ({| activeRooms := ar; sio_rooms := sio |},
   to_emit sid roomId (user_disconnected userId) sio).

(** The loop of the [disconnect] handler over [activeRooms.entries()]:
    every room whose member set holds [socket.id] loses it, the other
    sessions of that room are told, and a room left empty is deleted. *)
Fixpoint disconnect_loop (sid : string) (sio : list (jsval * list string))
    (entries : list (jsval * list jsval))
    : list (jsval * list jsval) * list delivery :=
  match entries with
  | [] => ([], [])
  | (roomId, users) :: rest =>
      let '(rest', out) := disconnect_loop sid sio rest in
      if JsSet.has (JStr sid) users then
        let users' := JsSet.delete (JStr sid) users in
        let msgs := to_emit sid roomId (user_disconnected (JStr sid)) sio in
        (if decide (JsSet.size users' = 0) then rest' else (roomId, users') :: rest',
         msgs ++ out)
      else ((roomId, users) :: rest', out)
  end.

(** [socket.on('disconnect', () => ...)] *)
Definition on_disconnect (sid : string) (st : server) : server * list delivery :=
  let sio := sio_leave_all sid (sio_rooms st) in
  let '(ar, out) := disconnect_loop sid sio (activeRooms st) in
  ({| activeRooms := ar; sio_rooms := sio |}, out).

(** *** Events and runs *)

Inductive event :=
| Connection (sid : string)
| JoinRoom (sid : string) (roomId userId : jsval)
| Offer (sid : string) (data : payload)
| Answer (sid : string) (data : payload)
| IceCandidate (sid : string) (data : payload)
| UserTalking (sid : string) (data : payload)
| LeaveRoom (sid : string) (roomId userId : jsval)
| Disconnect (sid : string).

Definition handle (e : event) (st : server) : server * list delivery :=
  match e with
  | Connection sid => on_connection sid st
  | JoinRoom sid r u => on_join_room sid r u st
  | Offer sid d => on_offer sid d st
  | Answer sid d => on_answer sid d st
  | IceCandidate sid d => on_ice_candidate sid d st
  | UserTalking sid d => on_user_talking sid d st
  | LeaveRoom sid r u => on_leave_room sid r u st
  | Disconnect sid => on_disconnect sid st
  end.

(** The state after a sequence of events, oldest first. *)
Definition run (es : list event) (st : server) : server :=
  foldl (λ s e, (handle e s).1) st es.

End Server.

(** ** The walkie-talkie client *)

Module Client.

(** A [string] holds the UTF-8 bytes of the JavaScript string.

    [String.prototype.trim] removes white space and line terminators from
    both ends.  Those of one byte: U+0009 to U+000D and U+0020. *)
Definition is_space (a : ascii) : bool :=
  let n := nat_of_ascii a in
  bool_decide (n = 32 ∨ (9 ≤ n ∧ n ≤ 13))%nat.

(** Of two bytes: U+00A0. *)
Definition is_space2 (a b : ascii) : bool :=
  bool_decide (nat_of_ascii a = 194 ∧ nat_of_ascii b = 160)%nat.

(** Of three bytes: U+1680, U+2000 to U+200A, U+2028, U+2029, U+202F,
    U+205F, U+3000 and U+FEFF. *)
Definition is_space3 (a b c : ascii) : bool :=
  let x := nat_of_ascii a in
  let y := nat_of_ascii b in
  let z := nat_of_ascii c in
  bool_decide
    ((x = 225 ∧ y = 154 ∧ z = 128) ∨
     (x = 226 ∧ y = 128 ∧ ((128 ≤ z ∧ z ≤ 138) ∨ z = 168 ∨ z = 169 ∨ z = 175)) ∨
     (x = 226 ∧ y = 129 ∧ z = 159) ∨
     (x = 227 ∧ y = 128 ∧ z = 128) ∨
     (x = 239 ∧ y = 187 ∧ z = 191))%nat.

(** The bytes are read forwards from the start of the string and backwards
    from its end. *)
Definition space2 (fwd : bool) (a b : ascii) : bool :=
  if fwd then is_space2 a b else is_space2 b a.

Definition space3 (fwd : bool) (a b c : ascii) : bool :=
  if fwd then is_space3 a b c else is_space3 c b a.


(** White space characters are dropped from the head while there are any. *)
Fixpoint strip (fwd : bool) (l : list ascii) : list ascii :=
  match l with
  | a :: l1 =>
      if is_space a then strip fwd l1 else
      match l1 with
      | b :: l2 =>
          if space2 fwd a b then strip fwd l2 else
          match l2 with
          | c :: l3 => if space3 fwd a b c then strip fwd l3 else l
          | [] => l
          end
      | [] => l
      end
  | [] => []
  end.

Definition trim_start (l : list ascii) : list ascii := strip true l.

Definition trim_end (l : list ascii) : list ascii := rev (strip false (rev l)).

Definition trim (s : string) : string :=
  string_of_list_ascii (trim_end (trim_start (list_ascii_of_string s))).

(** A room field that holds one no-break space (U+00A0), and one that
    holds [lobby] between a no-break space and an ideographic space
    (U+3000). *)
Definition nbsp : string :=
  String (ascii_of_nat 194) (String (ascii_of_nat 160) "").

Definition lobby_in_wide_space : string :=
  nbsp +:+ "lobby"
  +:+ String (ascii_of_nat 227) (String (ascii_of_nat 128) (String (ascii_of_nat 128) "")).

(** What [this.socket.emit] sends to the server.  [room] is [this.roomId]
    as it is when the message is built: [None] is [null]. *)
Inductive emitted :=
| join_room (roomId userId : string)
| leave_room (roomId userId : string)
| offer (room : option string) (offer : string) (to : jsval)
| answer (room : option string) (answer : string) (to : jsval)
| ice_candidate (room : option string) (candidate : string) (to : jsval)
| user_talking (room : option string) (userId : string) (isTalking : bool).

(** What a method does to the world outside the object, in order. *)
Inductive effect :=
| Emit (m : emitted)
| ShowError (message : string)
| UpdateStatus (message : string)
| ShowRoomSection
| SetRoomName (name : string)
| AddUserToList (userId : jsval)
| ClearUsersList
| TalkButton (talking : bool)
| ConsoleError (label : string)
| NewRTCPeerConnection (id : nat)
| RtcCreateOffer (id : nat)
| RtcSetRemoteDescription (id : nat) (description : jsval).

(** An [RTCPeerConnection] object: which object it is, and how many local
    tracks [addTrack] gave it when it was made. *)
Record conn := { pc_id : nat; pc_tracks : nat }.

(** [localStream] holds the [enabled] flag of each audio track;
    [peerConnections] is the object used as a map from participant id to
    connection; [roomId] is [null] ([None]) or a string; [next_pc] numbers
    the [RTCPeerConnection] objects made so far, so that two of them are
    never confused. *)
Record client := {
  localStream : option (list bool);
  peerConnections : gmap string conn;
  roomId : option string;
  userId : string;
  username : string;
  next_pc : nat
}.

(** The answers of the browser's WebRTC implementation, by connection:
    [None] and [false] are a rejected promise. *)
Record webrtc := {
  createOffer_result : nat → option string;
  createAnswer_result : nat → option string;
  setLocalDescription_ok : nat → string → bool;
  setRemoteDescription_ok : nat → jsval → bool
}.

(** An [async] method runs inside its caller up to its first [await];
    what follows runs later, when the browser has answered.  A [task] is
    that remainder, left pending by the caller.  It is run in one piece,
    with the browser's answers read from [webrtc]. *)
Inductive task :=
| OfferPending (pc : conn) (userId : jsval)
| AnswerPending (pc : conn) (offer : jsval) (fromUserId : jsval).

(** JavaScript's truth value of [this.roomId]: [null] and the empty string
    are false. *)
Definition truthy (r : option string) : bool :=
  match r with
  | Some s => negb (bool_decide (s = ""))
  | None => false
  end.

(** A property key is a string: other values are converted. *)
Definition prop_key (v : jsval) : string :=
  match v with
  | JUndefined => "undefined"
  | JBool true => "true"
  | JBool false => "false"
  | JStr s => s
  end.

(** [peerConnections] starts as [{}], so a key it does not hold is looked
    up in [Object.prototype], whose members are all truthy. *)
Definition object_prototype_keys : list string :=
  ["constructor"; "__defineGetter__"; "__defineSetter__"; "hasOwnProperty";
   "__lookupGetter__"; "__lookupSetter__"; "isPrototypeOf";
   "propertyIsEnumerable"; "toString"; "valueOf"; "__proto__";
   "toLocaleString"].

Inductive pcref :=
| PcOwn (pc : conn)
| PcInherited.

(** [this.peerConnections[userId]]: [None] when it is [undefined]. *)
Definition pc_lookup (uid : jsval) (st : client) : option pcref :=
  match peerConnections st !! prop_key uid with
  | Some pc => Some (PcOwn pc)
  | None =>
      if bool_decide (prop_key uid ∈ object_prototype_keys)
      then Some PcInherited else None
  end.

Definition with_localStream (s : option (list bool)) (st : client) : client :=
  {| localStream := s; peerConnections := peerConnections st;
     roomId := roomId st; userId := userId st; username := username st;
     next_pc := next_pc st |}.

Definition with_room (r : option string) (name : string) (st : client) : client :=
  {| localStream := localStream st; peerConnections := peerConnections st;
     roomId := r; userId := userId st; username := name;
     next_pc := next_pc st |}.

Definition with_link (k : string) (pc : conn) (st : client) : client :=
  {| localStream := localStream st;
     peerConnections := <[k := pc]> (peerConnections st);
     roomId := roomId st; userId := userId st; username := username st;
     next_pc := S (next_pc st) |}.

(** [async createOffer(userId)] up to its first [await]: the connection is
    looked up and asked for an offer. *)
Definition createOffer (uid : jsval) (st : client) : list effect * list task :=
  match pc_lookup uid st with
  | Some (PcOwn pc) => ([RtcCreateOffer (pc_id pc)], [OfferPending pc uid])
  | _ => ([ConsoleError "Error creating offer:"], [])
  end.

(** The rest of [createOffer], once the browser has answered. *)
Definition createOffer_resume (w : webrtc) (pc : conn) (uid : jsval) (st : client)
    : list effect :=
  match createOffer_result w (pc_id pc) with
  | Some o =>
      if setLocalDescription_ok w (pc_id pc) o
      then [Emit (offer (roomId st) o uid)]
      else [ConsoleError "Error creating offer:"]
  | None => [ConsoleError "Error creating offer:"]
  end.

(** [createPeerConnection(userId)]: the state after, the value returned,
    the effects, and the continuations left pending. *)
Definition createPeerConnection (uid : jsval) (st : client)
    : client * pcref * list effect * list task :=
  match pc_lookup uid st with
  | Some r => (st, r, [], [])
  | None =>
      let pc := {| pc_id := next_pc st;
                   pc_tracks := match localStream st with
                                | Some tracks => length tracks
                                | None => 0
                                end |} in
      let st1 := with_link (prop_key uid) pc st in
      let '(eff, tasks) := createOffer uid st1 in
      (st1, PcOwn pc, NewRTCPeerConnection (pc_id pc) :: eff, tasks)
  end.

(** [peerConnection.onicecandidate], as set by [createPeerConnection] for
    [userId]; [candidate] is [event.candidate]. *)
Definition onicecandidate (uid : jsval) (candidate : option string) (st : client)
    : list effect :=
  match candidate with
  | Some c => if truthy (roomId st) then [Emit (ice_candidate (roomId st) c uid)] else []
  | None => []
  end.

(** [async handleOffer(offer, fromUserId)] up to its first [await]. *)
Definition handleOffer (o : jsval) (fromUserId : jsval) (st : client)
    : client * list effect * list task :=
  let '(st1, r, eff, tasks) := createPeerConnection fromUserId st in
  match r with
  | PcOwn pc =>
      (st1, eff ++ [RtcSetRemoteDescription (pc_id pc) o],
       tasks ++ [AnswerPending pc o fromUserId])
  | PcInherited => (st1, eff ++ [ConsoleError "Error handling offer:"], tasks)
  end.

(** The rest of [handleOffer]. *)
Definition handleOffer_resume (w : webrtc) (pc : conn) (o : jsval)
    (fromUserId : jsval) (st : client) : list effect :=
  if setRemoteDescription_ok w (pc_id pc) o then
    match createAnswer_result w (pc_id pc) with
    | Some a =>
        if setLocalDescription_ok w (pc_id pc) a
        then [Emit (answer (roomId st) a fromUserId)]
        else [ConsoleError "Error handling offer:"]
    | None => [ConsoleError "Error handling offer:"]
    end
  else [ConsoleError "Error handling offer:"].

Definition run_task (w : webrtc) (st : client) (t : task) : list effect :=
  match t with
  | OfferPending pc uid => createOffer_resume w pc uid st
  | AnswerPending pc o uid => handleOffer_resume w pc o uid st
  end.

(** Everything an event causes when its pending continuations run before
    the next event: the effects of the handler, then theirs. *)
Definition settle (w : webrtc) (r : client * list effect * list task) : list effect :=
  r.1.2 ++ concat (run_task w r.1.1 <$> r.2).

(** [socket.on('user-connected', (userId) => ...)] *)
Definition on_user_connected (uid : jsval) (st : client)
    : client * list effect * list task :=
  let '(st1, _, eff, tasks) := createPeerConnection uid st in
  (st1, eff ++ [AddUserToList uid], tasks).

(** [updateUsersList(users)] *)
Definition updateUsersList (users : list jsval) : list effect :=
  ClearUsersList :: (AddUserToList <$> users).

(** The [users.forEach] of the [room-users] handler. *)
Fixpoint room_users_loop (users : list jsval) (st : client)
    : client * list effect * list task :=
  match users with
  | [] => (st, [], [])
  | uid :: rest =>
      if decide (uid ≠ JStr (userId st)) then
        let '(st1, _, eff, tasks) := createPeerConnection uid st in
        let '(st2, eff', tasks') := room_users_loop rest st1 in
        (st2, eff ++ eff', tasks ++ tasks')
      else room_users_loop rest st
  end.

(** [socket.on('room-users', (users) => ...)] *)
Definition on_room_users (users : list jsval) (st : client)
    : client * list effect * list task :=
  let '(st1, eff, tasks) := room_users_loop users st in
  (st1, updateUsersList users ++ eff, tasks).

(** [socket.on('offer', async (data) => ...)], with [data.offer] and
    [data.from]. *)
Definition on_offer (data_offer data_from : jsval) (st : client)
    : client * list effect * list task :=
  handleOffer data_offer data_from st.

(** [async getMicrophoneAccess()]; [media] is what [getUserMedia] gave:
    the tracks of a stream, or [None] when the promise was rejected.  The
    result is the new state, or the message of the error thrown. *)
Definition getMicrophoneAccess (media : option (list bool)) (st : client)
    : client * list effect + string * list effect :=
  match media with
  | Some tracks => inl (with_localStream (Some ((λ _, false) <$> tracks)) st, [])
  | None =>
      inr ("Microphone access denied. Please allow microphone permissions.",
           [ConsoleError "Error accessing microphone:"])
  end.

(** [async joinRoom()]; [roomInput] and [usernameInput] are the values of
    the two input fields. *)
Definition joinRoom (roomInput usernameInput : string) (media : option (list bool))
    (st : client) : client * list effect :=
  let r := trim roomInput in
  let name := if bool_decide (trim usernameInput = "") then "Anonymous"
              else trim usernameInput in
  let st1 := with_room (Some r) name st in
  if negb (truthy (roomId st1)) then
    (st1, [ShowError "Please enter a room name"])
  else
    match getMicrophoneAccess media st1 with
    | inl (st2, eff) =>
        (st2, eff ++ [Emit (join_room r (userId st2)); ShowRoomSection;
                      UpdateStatus ("Joined room: " +:+ r); SetRoomName r;
                      AddUserToList (JStr (userId st2))])
    | inr (message, eff) =>
        (st1, eff ++ [ConsoleError "Error joining room:";
                      ShowError ("Failed to join room: " +:+ message)])
    end.

(** [startTalking()] *)
Definition startTalking (st : client) : client * list effect :=
  match localStream st with
  | Some tracks =>
      (with_localStream (Some ((λ _, true) <$> tracks)) st,
       TalkButton true ::
       (if truthy (roomId st)
        then [Emit (user_talking (roomId st) (userId st) true)] else []))
  | None => (st, [])
  end.

(** [stopTalking()] *)
Definition stopTalking (st : client) : client * list effect :=
  match localStream st with
  | Some tracks =>
      (with_localStream (Some ((λ _, false) <$> tracks)) st,
       TalkButton false ::
       (if truthy (roomId st)
        then [Emit (user_talking (roomId st) (userId st) false)] else []))
  | None => (st, [])
  end.

(** The messages among some effects. *)
Definition emits (l : list effect) : list emitted :=
  omap (λ e, match e with Emit m => Some m | _ => None end) l.

End Client.

(** ** Vocabulary of the properties *)

Module ServerSpec.
Import Server.

(** Room names are not repeated, no room is empty, no member is repeated. *)
Definition wf (ar : list (jsval * list jsval)) : Prop :=
  NoDup ar.*1 ∧ ∀ r us, (r, us) ∈ ar → us ≠ [] ∧ NoDup us.

(** The two operations on the membership of rooms, with the session that
    asks. *)
Inductive membership_op :=
| Join (sid : string) (roomId userId : jsval)
| Leave (sid : string) (roomId userId : jsval).

Definition op_event (o : membership_op) : event :=
  match o with
  | Join sid r u => JoinRoom sid r u
  | Leave sid r u => LeaveRoom sid r u
  end.

(** [u] was joined to [r] and not left from it since: some join of [u] to
    [r] is followed by no leave of [u] from [r]. *)
Definition joined_not_left (ops : list membership_op) (r u : jsval) : Prop :=
  ∃ before after sid,
    ops = before ++ Join sid r u :: after ∧ ∀ sid', Leave sid' r u ∉ after.

(** What the client's [createOffer] sends for participant [p2] from room
    [lobby]: the fields [room], [offer] and [to], and no others. *)
Definition offer_to_p2 : payload :=
  {| room := JStr "lobby"; offer := JStr "sdp"; answer := JUndefined;
     candidate := JUndefined; from := JUndefined; to := JStr "p2";
     userId := JUndefined; isTalking := JUndefined |}.

(** Likewise what [handleOffer] and [onicecandidate] send for [p2]. *)
Definition answer_to_p2 : payload :=
  {| room := JStr "lobby"; offer := JUndefined; answer := JStr "sdp-answer";
     candidate := JUndefined; from := JUndefined; to := JStr "p2";
     userId := JUndefined; isTalking := JUndefined |}.

Definition candidate_to_p2 : payload :=
  {| room := JStr "lobby"; offer := JUndefined; answer := JUndefined;
     candidate := JStr "candidate"; from := JUndefined; to := JStr "p2";
     userId := JUndefined; isTalking := JUndefined |}.

(** Three sessions in room [lobby], as participants [p1], [p2] and [p3]. *)
Definition three_in_lobby : server :=
  run [Connection "s1"; JoinRoom "s1" (JStr "lobby") (JStr "p1");
       Connection "s2"; JoinRoom "s2" (JStr "lobby") (JStr "p2");
       Connection "s3"; JoinRoom "s3" (JStr "lobby") (JStr "p3")] init.

(** The scenario of two participants: [p1] and [p2] join [lobby], [p1]
    leaves, and the session of [p2] closes without a leave. *)
Definition lobby_scenario : list event :=
  [Connection "s1"; JoinRoom "s1" (JStr "lobby") (JStr "p1");
   Connection "s2"; JoinRoom "s2" (JStr "lobby") (JStr "p2");
   LeaveRoom "s1" (JStr "lobby") (JStr "p1");
   Disconnect "s2"].

End ServerSpec.

Module ClientSpec.
Import Client.

(** A browser whose WebRTC calls all succeed. *)
Definition browser_ok : webrtc :=
  {| createOffer_result := λ _, Some "sdp";
     createAnswer_result := λ _, Some "sdp-answer";
     setLocalDescription_ok := λ _ _, true;
     setRemoteDescription_ok := λ _ _, true |}.

(** Participant [p1] after joining [lobby]: one muted track, no links. *)
Definition in_lobby : client :=
  {| localStream := Some [false]; peerConnections := ∅;
     roomId := Some "lobby"; userId := "p1"; username := "Anonymous";
     next_pc := 0 |}.

(** A client that holds a stream and is in no room. *)
Definition no_room : client :=
  {| localStream := Some [false]; peerConnections := ∅;
     roomId := None; userId := "p1"; username := "Anonymous";
     next_pc := 0 |}.

(** [in_lobby] once it holds a connection for [p2]. *)
Definition linked_to_p2 : client :=
  {| localStream := Some [false];
     peerConnections := {[ "p2" := {| pc_id := 0; pc_tracks := 1 |} ]};
     roomId := Some "lobby"; userId := "p1"; username := "Anonymous";
     next_pc := 1 |}.

End ClientSpec.

(** ** The rest of the client: answers, candidates, leaving *)

Module ClientLifecycle.
Import Client.

(** What the methods below do to the world outside the object: an
    [effect] as before, or one of the operations on connections, tracks
    and page that only these methods perform. *)
Inductive action :=
| Did (e : effect)
| RtcAddIceCandidate (id : nat) (candidate : jsval)
| RemoveAudioElement (id : nat)
| ClosePeerConnection (id : nat)
| RemoveUserFromList (userId : jsval)
| ShowConnectionSection
| StopTracks (n : nat).

(** How a method ends: it returns, or an exception leaves it. *)
Inductive completion :=
| Normal
| Threw.

(** The messages among some actions. *)
Definition emits_of (l : list action) : list emitted :=
  emits (omap (λ a, match a with Did e => Some e | _ => None end) l).

Definition with_peerConnections (m : gmap string conn) (st : client) : client :=
  {| localStream := localStream st; peerConnections := m;
     roomId := roomId st; userId := userId st; username := username st;
     next_pc := next_pc st |}.

(** [async handleAnswer(answer, fromUserId)]: the description is given to
    the connection of the sender when there is one; a rejected promise, or
    a value that is no connection, is logged. *)
Definition handleAnswer (w : webrtc) (a : jsval) (fromUserId : jsval) (st : client)
    : list action :=
  match pc_lookup fromUserId st with
  | Some (PcOwn pc) =>
      Did (RtcSetRemoteDescription (pc_id pc) a) ::
      (if setRemoteDescription_ok w (pc_id pc) a then []
       else [Did (ConsoleError "Error handling answer:")])
  | Some PcInherited => [Did (ConsoleError "Error handling answer:")]
  | None => []
  end.

(** [async handleIceCandidate(candidate, fromUserId)]; [add_ok] tells
    whether the browser accepts the candidate on a connection. *)
Definition handleIceCandidate (add_ok : nat → jsval → bool) (c : jsval)
    (fromUserId : jsval) (st : client) : list action :=
  match pc_lookup fromUserId st with
  | Some (PcOwn pc) =>
      RtcAddIceCandidate (pc_id pc) c ::
      (if add_ok (pc_id pc) c then []
       else [Did (ConsoleError "Error handling ICE candidate:")])
  | Some PcInherited => [Did (ConsoleError "Error handling ICE candidate:")]
  | None => []
  end.

(** [removePeerConnection(userId)]; [has_audio] tells whether [ontrack]
    has stored an audio element in a connection.  A value found in
    [Object.prototype] has no [close], so calling it throws and the
    [delete] is not reached. *)
Definition removePeerConnection (has_audio : nat → bool) (uid : jsval) (st : client)
    : client * list action * completion :=
  match pc_lookup uid st with
  | Some (PcOwn pc) =>
      (with_peerConnections (delete (prop_key uid) (peerConnections st)) st,
       (if has_audio (pc_id pc) then [RemoveAudioElement (pc_id pc)] else [])
       ++ [ClosePeerConnection (pc_id pc)],
       Normal)
  | Some PcInherited => (st, [], Threw)
  | None => (st, [], Normal)
  end.

(** [socket.on('user-disconnected', (userId) => ...)] *)
Definition on_user_disconnected (has_audio : nat → bool) (uid : jsval) (st : client)
    : client * list action * completion :=
  match removePeerConnection has_audio uid st with
  | (st1, acts, Normal) => (st1, acts ++ [RemoveUserFromList uid], Normal)
  | (st1, acts, Threw) => (st1, acts, Threw)
  end.

(** [Object.keys(this.peerConnections)]: the own keys.  The map does not
    record the order in which they were added, so the order here is the
    map's, not the browser's. *)
Definition object_keys (st : client) : list string :=
  (map_to_list (peerConnections st)).*1.

(** The [forEach] of [leaveRoom] over the keys. *)
Fixpoint remove_all (has_audio : nat → bool) (keys : list string) (st : client)
    : client * list action * completion :=
  match keys with
  | [] => (st, [], Normal)
  | k :: rest =>
      match removePeerConnection has_audio (JStr k) st with
      | (st1, acts, Normal) =>
          let '(st2, acts', c) := remove_all has_audio rest st1 in
          (st2, acts ++ acts', c)
      | (st1, acts, Threw) => (st1, acts, Threw)
      end
  end.

(** [leaveRoom()] *)
Definition leaveRoom (has_audio : nat → bool) (st : client)
    : client * list action * completion :=
  let '(st1, acts1) :=
    if truthy (roomId st)
    then (with_room None (username st) st,
          [Did (Emit (leave_room (default "" (roomId st)) (userId st)))])
    else (st, []) in
  match remove_all has_audio (object_keys st1) st1 with
  | (st2, acts2, Normal) =>
      let acts3 := [ShowConnectionSection; Did (UpdateStatus "Left room")] in
      match localStream st2 with
      | Some tracks =>
          (with_localStream None st2,
           acts1 ++ acts2 ++ acts3 ++ [StopTracks (length tracks)], Normal)
      | None => (st2, acts1 ++ acts2 ++ acts3, Normal)
      end
  | (st2, acts2, Threw) => (st2, acts1 ++ acts2, Threw)
  end.

End ClientLifecycle.

(** ** More vocabulary *)

Module MoreSpec.
Import Server.

(** The session an event comes from. *)
Definition sender (e : event) : string :=
  match e with
  | Connection sid | JoinRoom sid _ _ | Offer sid _ | Answer sid _
  | IceCandidate sid _ | UserTalking sid _ | LeaveRoom sid _ _
  | Disconnect sid => sid
  end.

Definition is_room_users (n : notice) : bool :=
  match n with room_users _ => true | _ => false end.


(** The ids of the connections that some effects make, and of those they
    ask for an offer. *)
Definition made (l : list Client.effect) : list nat :=
  omap (λ e, match e with Client.NewRTCPeerConnection n => Some n | _ => None end) l.

Definition asked (l : list Client.effect) : list nat :=
  omap (λ e, match e with Client.RtcCreateOffer n => Some n | _ => None end) l.

Definition offered (t : Client.task) : option nat :=
  match t with
  | Client.OfferPending pc _ => Some (Client.pc_id pc)
  | Client.AnswerPending _ _ _ => None
  end.

(** A client in [lobby] with connections to [p2] and [p3]. *)
Definition two_links : Client.client :=
  {| Client.localStream := Some [false];
     Client.peerConnections :=
       {[ "p2" := {| Client.pc_id := 0; Client.pc_tracks := 1 |};
          "p3" := {| Client.pc_id := 1; Client.pc_tracks := 1 |} ]};
     Client.roomId := Some "lobby"; Client.userId := "p1";
     Client.username := "Anonymous"; Client.next_pc := 2 |}.

End MoreSpec.

(** ** Sessions and rooms, told from the events *)

Module SessionSpec.
Import Server.






End SessionSpec.

(** * Properties *)

(** ** [Map] and [Set] *)

Section js_collections.
Context {K V : Type} `{EqDecision K}.
Implicit Types (m : list (K * V)) (k : K) (v : V).

Lemma get_set k k' v m :
  JsMap.get k (JsMap.set k' v m) = if decide (k = k') then Some v else JsMap.get k m.
Proof.
  induction m as [|[k0 v0] m IH]; simpl.
  - repeat case_decide; congruence.
  - destruct (decide (k' = k0)) as [->|]; simpl; rewrite ?IH;
      repeat case_decide; congruence.
Qed.

Lemma get_mutate k k' (f : V → V) m :
  JsMap.get k (JsMap.mutate k' f m)
  = if decide (k = k') then f <$> JsMap.get k m else JsMap.get k m.
Proof.
  induction m as [|[k0 v0] m IH]; simpl.
  - by case_decide.
  - rewrite IH. repeat (case_decide; simpl in *; subst); congruence.
Qed.

Lemma get_delete k k' m :
  JsMap.get k (JsMap.delete k' m) = if decide (k = k') then None else JsMap.get k m.
Proof.
  unfold JsMap.delete. induction m as [|[k0 v0] m IH]; simpl.
  - by case_decide.
  - destruct (decide (k0 = k')) as [->|Hne].
    + rewrite filter_cons_False by (simpl; auto). rewrite IH.
      repeat case_decide; congruence.
    + rewrite filter_cons_True by done. simpl. rewrite IH.
      repeat case_decide; congruence.
Qed.

Lemma get_elem_of k v m : JsMap.get k m = Some v → (k, v) ∈ m.
Proof.
  induction m as [|[k0 v0] m IH]; simpl; [done|].
  case_decide; intros ?; simplify_eq; [left | right; auto].
Qed.

Lemma has_get_None k m : JsMap.has k m = false ↔ JsMap.get k m = None.
Proof. unfold JsMap.has. by destruct (JsMap.get k m). Qed.

Lemma get_None_keys k m : JsMap.get k m = None ↔ k ∉ m.*1.
Proof.
  induction m as [|[k0 v0] m IH]; simpl.
  - split; [intros _; apply not_elem_of_nil | done].
  - rewrite not_elem_of_cons, <- IH. case_decide; naive_solver.
Qed.

Lemma set_fresh k v m : JsMap.get k m = None → JsMap.set k v m = m ++ [(k, v)].
Proof.
  induction m as [|[k0 v0] m IH]; simpl; [done|].
  case_decide; [done|]. intros ?. by rewrite IH.
Qed.

Lemma mutate_keys k (f : V → V) m : (JsMap.mutate k f m).*1 = m.*1.
Proof.
  unfold JsMap.mutate. rewrite <- list_fmap_compose.
  apply list_fmap_ext. intros _ [k0 v0] _. simpl. by case_decide.
Qed.

Lemma mutate_elem_of k (f : V → V) m p :
  p ∈ JsMap.mutate k f m →
  (p ∈ m ∧ p.1 ≠ k) ∨ (∃ v, (k, v) ∈ m ∧ p = (k, f v)).
Proof.
  unfold JsMap.mutate. rewrite list_elem_of_fmap. intros ([k0 v0] & -> & Hin).
  simpl. case_decide; simplify_eq; [right | left]; eauto.
Qed.

(** A change that keeps the value of the one entry of [k] keeps the map. *)
Lemma mutate_id k (f : V → V) m :
  (∀ v, (k, v) ∈ m → f v = v) → JsMap.mutate k f m = m.
Proof.
  intros Hf. unfold JsMap.mutate.
  induction m as [|[k0 v0] m IH]; simpl; [done|].
  f_equal.
  - case_decide; simpl in *; [|done]. subst. rewrite Hf; [done | left].
  - apply IH. intros v ?. apply Hf. by right.
Qed.

Lemma delete_keys_NoDup k m : NoDup m.*1 → NoDup (JsMap.delete k m).*1.
Proof.
  unfold JsMap.delete. induction m as [|[k0 v0] m IH]; simpl; [done|].
  rewrite NoDup_cons. intros [Hk Hm]. rewrite filter_cons. simpl.
  case_decide; simpl; [|auto].
  apply NoDup_cons. split; [|auto].
  rewrite list_elem_of_fmap. intros ([k1 v1] & ? & Hin). simpl in *. subst.
  apply list_elem_of_filter in Hin as [_ Hin].
  apply Hk. apply list_elem_of_fmap. by exists (k1, v1).
Qed.

Lemma set_add_elem_of `{EqDecision A} (x y : A) (s : list A) :
  y ∈ JsSet.add x s ↔ y = x ∨ y ∈ s.
Proof.
  unfold JsSet.add, JsSet.has. case_bool_decide.
  - naive_solver.
  - rewrite elem_of_app, list_elem_of_singleton. naive_solver.
Qed.

Lemma set_delete_elem_of `{EqDecision A} (x y : A) (s : list A) :
  y ∈ JsSet.delete x s ↔ y ∈ s ∧ y ≠ x.
Proof. unfold JsSet.delete. rewrite list_elem_of_filter. naive_solver. Qed.

Lemma set_add_NoDup `{EqDecision A} (x : A) (s : list A) :
  NoDup s → NoDup (JsSet.add x s).
Proof.
  unfold JsSet.add, JsSet.has. case_bool_decide; [done|].
  intros. apply NoDup_app. split_and!; [done| |apply NoDup_singleton].
  intros y ? ->%list_elem_of_singleton. done.
Qed.

Lemma set_delete_NoDup `{EqDecision A} (x : A) (s : list A) :
  NoDup s → NoDup (JsSet.delete x s).
Proof. apply NoDup_filter. Qed.

Lemma set_add_ne_nil `{EqDecision A} (x : A) (s : list A) : JsSet.add x s ≠ [].
Proof.
  intros Hnil. assert (x ∈ JsSet.add x s) as Hx by (apply set_add_elem_of; auto).
  rewrite Hnil in Hx. by apply not_elem_of_nil in Hx.
Qed.

Lemma set_add_present `{EqDecision A} (x : A) (s : list A) :
  x ∈ s → JsSet.add x s = s.
Proof. intros. unfold JsSet.add, JsSet.has. by rewrite bool_decide_eq_true_2. Qed.

Lemma set_delete_absent `{EqDecision A} (x : A) (s : list A) :
  x ∉ s → JsSet.delete x s = s.
Proof.
  intros Hx. unfold JsSet.delete. induction s as [|y s IH]; [done|].
  apply not_elem_of_cons in Hx as [? ?].
  rewrite filter_cons_True by congruence. f_equal. auto.
Qed.
End js_collections.

(** ** The registry of the server *)

Module ServerRegistry.
Import Server ServerSpec.

Lemma wf_nil : wf [].
Proof. split; [constructor | intros ?? []%not_elem_of_nil]. Qed.

Lemma wf_members r ar : wf ar → NoDup (membersOf r ar).
Proof.
  intros [_ Hw]. unfold membersOf.
  destruct (JsMap.get r ar) as [us|] eqn:E; simpl; [|constructor].
  by apply get_elem_of, Hw in E as [_ ?].
Qed.

Lemma wf_members_nil r ar :
  wf ar → membersOf r ar = [] ↔ JsMap.has r ar = false.
Proof.
  intros [_ Hw]. unfold membersOf, JsMap.has.
  destruct (JsMap.get r ar) as [us|] eqn:E; simpl; [|done].
  apply get_elem_of, Hw in E as [? _]. split; [done | discriminate].
Qed.

(** With names not repeated, the entry of a name is the one [get] finds. *)
Lemma wf_entry (r : jsval) (us : list jsval) ar : NoDup ar.*1 → (r, us) ∈ ar → JsMap.get r ar = Some us.
Proof.
  induction ar as [|[k0 v0] ar IH]; simpl.
  - intros _ []%not_elem_of_nil.
  - rewrite NoDup_cons, elem_of_cons. intros [Hk Hnd] [Heq|Hin].
    + simplify_eq. by rewrite decide_True.
    + rewrite decide_False; [auto|]. intros ->. apply Hk.
      apply list_elem_of_fmap. by exists (k0, us).
Qed.

Lemma membersOf_join sid r r' u st :
  membersOf r (activeRooms (on_join_room sid r' u st).1)
  = if decide (r = r') then JsSet.add u (membersOf r (activeRooms st))
    else membersOf r (activeRooms st).
Proof.
  unfold on_join_room, membersOf, JsMap.has. simpl. rewrite get_mutate.
  destruct (JsMap.get r' (activeRooms st)) as [us|] eqn:E; simpl.
  - case_decide; [subst; by rewrite E | done].
  - rewrite get_set. case_decide; [subst; by rewrite E | done].
Qed.

Lemma membersOf_leave sid r r' u st :
  membersOf r (activeRooms (on_leave_room sid r' u st).1)
  = if decide (r = r') then JsSet.delete u (membersOf r (activeRooms st))
    else membersOf r (activeRooms st).
Proof.
  unfold on_leave_room, JsMap.has. simpl.
  destruct (JsMap.get r' (activeRooms st)) as [us|] eqn:E; simpl.
  - destruct (decide (JsSet.size _ = 0)) as [Hz|Hz].
    + apply nil_length_inv in Hz. unfold membersOf in *.
      rewrite get_mutate, decide_True, E in Hz by done. simpl in Hz.
      rewrite get_delete. case_decide; [subst; by rewrite E | ].
      by rewrite get_mutate, decide_False.
    + unfold membersOf. rewrite get_mutate.
      case_decide; [subst; by rewrite E | done].
  - unfold membersOf. case_decide; [subst; by rewrite E | done].
Qed.

Lemma wf_join sid r u st :
  wf (activeRooms st) → wf (activeRooms (on_join_room sid r u st).1).
Proof.
  intros [Hk Hw]. unfold on_join_room. simpl.
  set (ar1 := if negb _ then _ else _).
  assert (NoDup ar1.*1 ∧ ∀ r0 us, (r0, us) ∈ ar1 → r0 ≠ r → us ≠ [] ∧ NoDup us)
    as [Hk1 Hw1].
  { subst ar1. destruct (JsMap.has r (activeRooms st)) eqn:Hhas; simpl.
    - split; [done | eauto].
    - apply has_get_None in Hhas. rewrite set_fresh by done. split.
      + rewrite fmap_app. apply NoDup_app. split_and!; [done| |apply NoDup_singleton].
        intros k ? ->%list_elem_of_singleton. by apply get_None_keys in Hhas.
      + intros r0 us [?|Hin%list_elem_of_singleton]%elem_of_app ?;
          [eauto | simplify_eq]. }
  assert (∀ us, (r, us) ∈ ar1 → NoDup us) as Hnd.
  { subst ar1. destruct (JsMap.has r (activeRooms st)) eqn:Hhas; simpl.
    - intros us ?%Hw. tauto.
    - apply has_get_None in Hhas. rewrite set_fresh by done.
      intros us [?%Hw|Hin%list_elem_of_singleton]%elem_of_app; [tauto|].
      simplify_eq. constructor. }
  split; [by rewrite mutate_keys|].
  intros r0 us [[Hin Hne]|(v & Hin & Heq)]%mutate_elem_of.
  - eapply Hw1; eauto.
  - simplify_eq. split; [apply set_add_ne_nil | apply set_add_NoDup; eauto].
Qed.

Lemma wf_leave sid r u st :
  wf (activeRooms st) → wf (activeRooms (on_leave_room sid r u st).1).
Proof.
  intros [Hk Hw]. unfold on_leave_room. simpl.
  destruct (JsMap.has r (activeRooms st)); [|by split].
  set (ar1 := JsMap.mutate r (JsSet.delete u) (activeRooms st)).
  assert (NoDup ar1.*1) as Hk1 by (subst ar1; by rewrite mutate_keys).
  assert (∀ r0 us, (r0, us) ∈ ar1 → NoDup us ∧ (r0 ≠ r → us ≠ [])) as Hw1.
  { intros r0 us [[Hin Hne]|(v & Hin & Heq)]%mutate_elem_of.
    - apply Hw in Hin. tauto.
    - simplify_eq. split; [|done]. apply set_delete_NoDup.
      by apply Hw in Hin as [_ ?]. }
  case_decide as Hz.
  - split; [by apply delete_keys_NoDup|].
    intros r0 us [Hne Hin]%list_elem_of_filter. simpl in Hne.
    apply Hw1 in Hin. tauto.
  - split; [done|]. intros r0 us Hin. pose proof (Hw1 _ _ Hin) as [? Hne].
    split; [|done]. destruct (decide (r0 = r)) as [->|]; [|auto].
    intros ->. apply Hz. unfold membersOf. by rewrite (wf_entry r [] ar1).
Qed.

Lemma disconnect_loop_wf sid sio ar :
  wf ar →
  wf (disconnect_loop sid sio ar).1 ∧
  ∀ r, r ∈ (disconnect_loop sid sio ar).1.*1 → r ∈ ar.*1.
Proof.
  induction ar as [|[r0 us0] ar IH]; simpl; [by split|].
  intros [[Hk Hnd]%NoDup_cons Hw].
  destruct IH as [[Hk' Hw'] Hsub].
  { split; [done|]. intros r us ?. apply (Hw r). by right. }
  destruct (disconnect_loop sid sio ar) as [rest' out]. simpl in *.
  assert (us0 ≠ [] ∧ NoDup us0) as [? ?] by (apply (Hw r0); left).
  assert (∀ us, us ≠ [] → NoDup us → wf ((r0, us) :: rest') ∧
            ∀ r, r ∈ ((r0, us) :: rest').*1 → r ∈ r0 :: ar.*1) as Hcons.
  { intros us ??. split; [split|].
    - simpl. apply NoDup_cons. split; [|done]. intros ?%Hsub. done.
    - intros r us' [?|?]%elem_of_cons; [simplify_eq; done | eauto].
    - simpl. intros r [->|?%Hsub]%elem_of_cons; [left | by right]. }
  destruct (JsSet.has (JStr sid) us0); [|by apply Hcons].
  case_decide as Hz; simpl.
  - split; [by split|]. intros r ?%Hsub. by right.
  - apply Hcons; [|by apply set_delete_NoDup].
    intros Hnil. apply Hz. unfold JsSet.size. by rewrite Hnil.
Qed.

Lemma wf_handle e st : wf (activeRooms st) → wf (activeRooms (handle e st).1).
Proof.
  destruct e; cbn [handle]; try done.
  - apply wf_join.
  - apply wf_leave.
  - intros Hw. unfold on_disconnect.
    pose proof (disconnect_loop_wf sid (sio_leave_all sid (sio_rooms st)) _ Hw) as [? _].
    by destruct (disconnect_loop _ _ _).
Qed.

Lemma run_snoc es e st : run (es ++ [e]) st = (handle e (run es st)).1.
Proof. unfold run. by rewrite foldl_app. Qed.

Lemma wf_run es : wf (activeRooms (run es init)).
Proof.
  induction es as [|e es IH] using rev_ind; [apply wf_nil|].
  rewrite run_snoc. by apply wf_handle.
Qed.

(** C3. After any sequence of events (connections, joins, leaves, relayed
    messages and disconnects) from the empty registry, a room has no
    members exactly when the registry has no entry for it: no entry with
    an empty member set is ever left behind. *)
Theorem C3_empty_iff_absent (es : list event) (r : jsval) :
  let ar := activeRooms (run es init) in
  (membersOf r ar = [] ↔ JsMap.has r ar = false) ∧
  Forall (λ entry, entry.2 ≠ []) ar.
Proof.
  simpl. pose proof (wf_run es) as Hw. split.
  - by apply wf_members_nil.
  - apply Forall_forall. intros [r' us] Hin. by apply Hw in Hin as [? _].
Qed.


Lemma joined_not_left_nil r u : ¬ joined_not_left [] r u.
Proof. intros (before & after & sid & Heq & _). by destruct before. Qed.

Lemma joined_not_left_snoc_join ops sid r' u' r u :
  joined_not_left (ops ++ [Join sid r' u']) r u
  ↔ (r = r' ∧ u = u') ∨ joined_not_left ops r u.
Proof.
  split.
  - intros (before & after & s & Heq & Hno).
    destruct after as [|x after _] using rev_ind.
    + apply app_inj_tail in Heq as [_ Heq]. simplify_eq. by left.
    + rewrite app_comm_cons, app_assoc in Heq.
      apply app_inj_tail in Heq as [-> <-]. right.
      exists before, after, s. split; [done|].
      intros sid' Hin. apply (Hno sid'), elem_of_app. by left.
  - intros [[-> ->]|(before & after & s & -> & Hno)].
    + exists ops, [], sid. split; [done|]. intros ? []%not_elem_of_nil.
    + exists before, (after ++ [Join sid r' u']), s. split.
      * by rewrite <- app_assoc.
      * intros sid' [Hin|Hin%list_elem_of_singleton]%elem_of_app;
          [by apply Hno in Hin | done].
Qed.

Lemma joined_not_left_snoc_leave ops sid r' u' r u :
  joined_not_left (ops ++ [Leave sid r' u']) r u
  ↔ joined_not_left ops r u ∧ ¬ (r = r' ∧ u = u').
Proof.
  split.
  - intros (before & after & s & Heq & Hno).
    destruct after as [|x after _] using rev_ind.
    + apply app_inj_tail in Heq as [_ Heq]. done.
    + rewrite app_comm_cons, app_assoc in Heq.
      apply app_inj_tail in Heq as [-> <-]. split.
      * exists before, after, s. split; [done|].
        intros sid' Hin. apply (Hno sid'), elem_of_app. by left.
      * intros [-> ->]. apply (Hno sid), elem_of_app. right. by left.
  - intros [(before & after & s & -> & Hno) Hne].
    exists before, (after ++ [Leave sid r' u']), s. split.
    + by rewrite <- app_assoc.
    + intros sid' [Hin|Hin%list_elem_of_singleton]%elem_of_app;
        [by apply Hno in Hin | simplify_eq; tauto].
Qed.

Lemma members_joined_not_left ops r u :
  u ∈ membersOf r (activeRooms (run (op_event <$> ops) init))
  ↔ joined_not_left ops r u.
Proof.
  revert r u. induction ops as [|o ops IH] using rev_ind; intros r u.
  - split; [intros []%not_elem_of_nil | intros []%joined_not_left_nil].
  - rewrite fmap_app. change (op_event <$> [o]) with [op_event o].
    rewrite run_snoc. destruct o as [sid r' u'|sid r' u']; cbn [op_event handle].
    + rewrite membersOf_join, joined_not_left_snoc_join, <- IH.
      case_decide; [rewrite set_add_elem_of|]; naive_solver.
    + rewrite membersOf_leave, joined_not_left_snoc_leave, <- IH.
      case_decide; [rewrite set_delete_elem_of|]; naive_solver.
Qed.

Lemma join_present sid r u st :
  wf (activeRooms st) → u ∈ membersOf r (activeRooms st) →
  activeRooms (on_join_room sid r u st).1 = activeRooms st.
Proof.
  intros [Hk Hw] Hin. unfold on_join_room, JsMap.has, membersOf in *. simpl.
  destruct (JsMap.get r (activeRooms st)) as [us|] eqn:E; simpl in *;
    [|by apply not_elem_of_nil in Hin].
  apply mutate_id. intros v Hv. apply wf_entry in Hv; [|done].
  simplify_eq. by apply set_add_present.
Qed.

Lemma leave_absent sid r u st :
  wf (activeRooms st) → u ∉ membersOf r (activeRooms st) →
  activeRooms (on_leave_room sid r u st).1 = activeRooms st.
Proof.
  intros Hwf Hin. pose proof Hwf as [Hk Hw].
  unfold on_leave_room. simpl.
  destruct (JsMap.has r (activeRooms st)) eqn:Hhas; [|done].
  rewrite mutate_id.
  - rewrite decide_False; [done|]. intros Hz%nil_length_inv.
    apply wf_members_nil in Hz; [congruence | done].
  - intros v Hv. apply set_delete_absent. intros ?. apply Hin.
    unfold membersOf. by rewrite (wf_entry r v).
Qed.

(** C5. After any finite sequence of joins and leaves from the empty
    registry, the members of a room are exactly the participants that were
    joined to it and not left from it since, each once.  Joining a
    participant that is already a member leaves the registry as it is, and
    so does a leave that names a room without entry or a participant that
    is not a member; both handlers return normally. *)
Theorem C5_members_are_joins_minus_leaves (ops : list membership_op) (r : jsval) :
  let st := run (op_event <$> ops) init in
  NoDup (membersOf r (activeRooms st)) ∧
  (∀ u, u ∈ membersOf r (activeRooms st) ↔ joined_not_left ops r u) ∧
  (∀ sid u, u ∈ membersOf r (activeRooms st) →
     activeRooms (on_join_room sid r u st).1 = activeRooms st) ∧
  (∀ sid u, u ∉ membersOf r (activeRooms st) →
     activeRooms (on_leave_room sid r u st).1 = activeRooms st).
Proof.
  cbv zeta. pose proof (wf_run (op_event <$> ops)) as Hw. split_and!.
  - by apply wf_members.
  - intros u. apply members_joined_not_left.
  - intros sid u. by apply join_present.
  - intros sid u. by apply leave_absent.
Qed.

(** The claim at two participants: a second join of [p1] changes nothing,
    and neither does a leave of [p3], which never joined. *)
Lemma C5_members_are_joins_minus_leaves_witness :
  let ops := [Join "s1" (JStr "lobby") (JStr "p1");
              Join "s2" (JStr "lobby") (JStr "p2")] in
  let st := run (op_event <$> ops) init in
  activeRooms (on_join_room "s1" (JStr "lobby") (JStr "p1") st).1 = activeRooms st ∧
  activeRooms (on_leave_room "s1" (JStr "lobby") (JStr "p3") st).1 = activeRooms st.
Proof.
  pose proof (C5_members_are_joins_minus_leaves
    [Join "s1" (JStr "lobby") (JStr "p1"); Join "s2" (JStr "lobby") (JStr "p2")]
    (JStr "lobby")) as (_ & _ & Hj & Hl).
  split.
  - apply Hj. apply (bool_decide_unpack _). by vm_compute.
  - apply Hl. apply (bool_decide_unpack _). by vm_compute.
Defined.

End ServerRegistry.

(** ** What the server sends *)

Module ServerRelay.
Import Server ServerSpec.

Lemma sio_sessions_join sid r t :
  sio_sessions r (sio_join sid r t) = JsSet.add sid (sio_sessions r t).
Proof.
  unfold sio_join, sio_sessions, JsMap.has. rewrite get_mutate, decide_True by done.
  destruct (JsMap.get r t) as [l|] eqn:E; simpl.
  - by rewrite E.
  - by rewrite get_set, decide_True.
Qed.

Lemma to_emit_elem_of sid r n t x m :
  (x, m) ∈ to_emit sid r n t ↔ m = n ∧ x ∈ sio_sessions r t ∧ x ≠ sid.
Proof.
  unfold to_emit, sio_to. rewrite list_elem_of_fmap. split.
  - intros (y & ? & [? ?]%list_elem_of_filter). by simplify_eq.
  - intros (-> & ? & ?). exists x. split; [done|]. by apply list_elem_of_filter.
Qed.

(** What a join sends, whatever the room name is: [user-connected] to the
    sessions that were in the room, [room-users] to the joiner, with the
    members as they are after the join. *)
Lemma join_room_deliveries sid r u st :
  let res := on_join_room sid r u st in
  (∀ t, (t, user_connected u) ∈ res.2 ↔ t ∈ sio_sessions r (sio_rooms st) ∧ t ≠ sid) ∧
  (∀ t us, (t, room_users us) ∈ res.2 ↔ t = sid ∧ us = membersOf r (activeRooms res.1)) ∧
  membersOf r (activeRooms res.1) = JsSet.add u (membersOf r (activeRooms st)) ∧
  u ∈ membersOf r (activeRooms res.1).
Proof.
  cbv zeta.
  assert (membersOf r (activeRooms (on_join_room sid r u st).1)
          = JsSet.add u (membersOf r (activeRooms st))) as Hm.
  { by rewrite ServerRegistry.membersOf_join, decide_True. }
  split_and!; [| |done|].
  - intros t. unfold on_join_room. simpl.
    rewrite elem_of_app, to_emit_elem_of, sio_sessions_join, set_add_elem_of,
      list_elem_of_singleton.
    naive_solver.
  - intros t us. unfold on_join_room at 1. simpl.
    rewrite elem_of_app, to_emit_elem_of, list_elem_of_singleton.
    split; [intros [[? _]|?]; [done | by simplify_eq] | intros [-> ->]; by right].
  - rewrite Hm. apply set_add_elem_of. by left.
Qed.

(** C7 as stated fails: a join without room name on the empty registry
    changes the registry and sends a message. *)
Lemma C7_missing_room_is_not_dropped :
  ¬ (let res := on_join_room "s1" JUndefined (JStr "p1") init in
     activeRooms res.1 = activeRooms init ∧ res.2 = []).
Proof. vm_compute. intros [? _]. discriminate. Qed.

(** C7, amended. A join whose room name is missing is handled like any
    other join, with the missing name ([undefined]) as the key: after it
    the registry has an entry under that key which holds the participant,
    the joiner is sent [room-users] with those members, and the sessions
    joined under that key before are sent [user-connected]. *)
Theorem C7_missing_room_is_a_room (sid : string) (u : jsval) (st : server) :
  let res := on_join_room sid JUndefined u st in
  JsMap.has JUndefined (activeRooms res.1) = true ∧
  u ∈ membersOf JUndefined (activeRooms res.1) ∧
  (sid, room_users (membersOf JUndefined (activeRooms res.1))) ∈ res.2 ∧
  (∀ t, (t, user_connected u) ∈ res.2 ↔
     t ∈ sio_sessions JUndefined (sio_rooms st) ∧ t ≠ sid).
Proof.
  cbv zeta. pose proof (join_room_deliveries sid JUndefined u st) as (Ha & Hb & Hm & Hu).
  cbv zeta in *. split_and!; [|done| |done].
  - unfold membersOf, JsMap.has in *.
    destruct (JsMap.get JUndefined _); [done | by apply not_elem_of_nil in Hu].
  - by apply Hb.
Qed.

(** The relay handlers never read [to]: two messages that differ only
    there are relayed alike. *)
Lemma relay_ignores_to sid d d' st :
  room d = room d' → offer d = offer d' → answer d = answer d' →
  candidate d = candidate d' → from d = from d' →
  on_offer sid d st = on_offer sid d' st ∧
  on_answer sid d st = on_answer sid d' st ∧
  on_ice_candidate sid d st = on_ice_candidate sid d' st.
Proof.
  intros. unfold on_offer, on_answer, on_ice_candidate. split_and!; congruence.
Qed.

(** A relayed offer goes to every other session of [room], and its [from]
    is the [from] of the message received. *)
Lemma on_offer_deliveries sid d st x m :
  (x, m) ∈ (on_offer sid d st).2 ↔
  m = relayed_offer (offer d) (from d) ∧
  x ∈ sio_sessions (room d) (sio_rooms st) ∧ x ≠ sid.
Proof. apply to_emit_elem_of. Qed.

(** C1, at a room of three. Session [s1] (participant [p1]) sends an
    offer, an answer and a candidate addressed to [p2]: the server
    delivers each to the sessions of both [p2] and [p3], and the [from] of
    what it delivers is [undefined], not [p1]. *)
Theorem C1_offer_reaches_the_room_without_sender_identity :
  (on_offer "s1" offer_to_p2 three_in_lobby).2
  = [("s2", relayed_offer (JStr "sdp") JUndefined);
     ("s3", relayed_offer (JStr "sdp") JUndefined)] ∧
  (on_answer "s1" answer_to_p2 three_in_lobby).2
  = [("s2", relayed_answer (JStr "sdp-answer") JUndefined);
     ("s3", relayed_answer (JStr "sdp-answer") JUndefined)] ∧
  (on_ice_candidate "s1" candidate_to_p2 three_in_lobby).2
  = [("s2", relayed_ice_candidate (JStr "candidate") JUndefined);
     ("s3", relayed_ice_candidate (JStr "candidate") JUndefined)].
Proof. split_and!; reflexivity. Qed.

(** A session whose id is in no member set leaves the registry as it is
    when it closes, and nobody is told. *)
Lemma disconnect_loop_other_id sid sio ar :
  (∀ r us, (r, us) ∈ ar → JStr sid ∉ us) →
  disconnect_loop sid sio ar = (ar, []).
Proof.
  induction ar as [|[r us] ar IH]; simpl; [done|]. intros Hno.
  rewrite IH by (intros r' us' ?; apply (Hno r'); by right).
  unfold JsSet.has. rewrite bool_decide_eq_false_2; [done|]. apply (Hno r). left.
Qed.

(** The handler does clean up when the participant id that was joined is
    the session id. *)
Example disconnect_removes_session_id :
  activeRooms (run [Connection "s2"; JoinRoom "s2" (JStr "lobby") (JStr "s2");
                    Disconnect "s2"] init) = [].
Proof. reflexivity. Qed.

(** C2, on the scenario of two participants. After [p2]'s session closes
    without a leave, the registry still has the entry of [lobby], with
    [p2] in it: the handler looks for the session id [s2] among the
    members, which are participant ids. *)
Theorem C2_disconnect_leaves_participant_in_room :
  activeRooms (run lobby_scenario init) = [(JStr "lobby", [JStr "p2"])] ∧
  JsMap.has (JStr "lobby") (activeRooms (run lobby_scenario init)) = true.
Proof. split; reflexivity. Qed.

End ServerRelay.

(** ** The client *)

Module ClientProps.
Import Client ClientSpec.

Lemma pc_lookup_own uid pc st :
  peerConnections st !! prop_key uid = Some pc → pc_lookup uid st = Some (PcOwn pc).
Proof. intros E. unfold pc_lookup. by rewrite E. Qed.

Lemma pc_lookup_None uid st :
  pc_lookup uid st = None →
  peerConnections st !! prop_key uid = None ∧ prop_key uid ∉ object_prototype_keys.
Proof.
  unfold pc_lookup. destruct (peerConnections st !! prop_key uid); [done|].
  case_bool_decide; [done | auto].
Qed.

(** The early return of [createPeerConnection]. *)
Lemma createPeerConnection_present uid r st :
  pc_lookup uid st = Some r → createPeerConnection uid st = (st, r, [], []).
Proof. intros E. unfold createPeerConnection. by rewrite E. Qed.

(** Its other path: a connection is made, stored under the participant,
    and asked for an offer at once. *)
Lemma createPeerConnection_absent uid st :
  pc_lookup uid st = None →
  let pc := {| pc_id := next_pc st;
               pc_tracks := match localStream st with
                            | Some tracks => length tracks
                            | None => 0
                            end |} in
  createPeerConnection uid st
  = (with_link (prop_key uid) pc st, PcOwn pc,
     [NewRTCPeerConnection (next_pc st); RtcCreateOffer (next_pc st)],
     [OfferPending pc uid]).
Proof.
  intros E pc. unfold createPeerConnection, createOffer. rewrite E. fold pc.
  rewrite (pc_lookup_own uid pc (with_link (prop_key uid) pc st)); [done|].
  simpl. apply lookup_insert_eq.
Qed.

Lemma createPeerConnection_userId uid st :
  userId (createPeerConnection uid st).1.1.1 = userId st.
Proof.
  destruct (pc_lookup uid st) as [r|] eqn:E.
  - by rewrite (createPeerConnection_present uid r).
  - by rewrite createPeerConnection_absent.
Qed.

Lemma createPeerConnection_ensures uid st :
  is_Some (pc_lookup uid (createPeerConnection uid st).1.1.1).
Proof.
  destruct (pc_lookup uid st) as [r|] eqn:E.
  - rewrite (createPeerConnection_present uid r) by done. simpl. by rewrite E.
  - rewrite createPeerConnection_absent by done. simpl.
    erewrite pc_lookup_own; [done|]. simpl. apply lookup_insert_eq.
Qed.

Lemma createPeerConnection_keeps uid uid' st :
  is_Some (pc_lookup uid' st) →
  is_Some (pc_lookup uid' (createPeerConnection uid st).1.1.1).
Proof.
  intros Hsome. destruct (pc_lookup uid st) as [r|] eqn:E.
  - by rewrite (createPeerConnection_present uid r).
  - rewrite createPeerConnection_absent by done. simpl.
    unfold pc_lookup in Hsome |- *. simpl. rewrite lookup_insert.
    destruct (decide (prop_key uid = prop_key uid')); [simpl; eauto | done].
Qed.

Lemma room_users_loop_userId users st :
  userId (room_users_loop users st).1.1 = userId st.
Proof.
  revert st. induction users as [|uid users IH]; intros st; simpl; [done|].
  case_decide; [|apply IH].
  pose proof (createPeerConnection_userId uid st) as Hu.
  destruct (createPeerConnection uid st) as [[[st1 ?] eff] tasks]. simpl in Hu.
  specialize (IH st1).
  destruct (room_users_loop users st1) as [[st2 eff'] tasks']. simpl in *. congruence.
Qed.

Lemma room_users_loop_keeps users uid st :
  is_Some (pc_lookup uid st) → is_Some (pc_lookup uid (room_users_loop users st).1.1).
Proof.
  revert st. induction users as [|uid' users IH]; intros st Hsome; simpl; [done|].
  case_decide; [|by apply IH].
  pose proof (createPeerConnection_keeps uid' uid st Hsome) as Hk.
  destruct (createPeerConnection uid' st) as [[[st1 ?] eff] tasks]. simpl in Hk.
  specialize (IH st1 Hk).
  by destruct (room_users_loop users st1) as [[st2 eff'] tasks'].
Qed.

(** After a roster, every participant in it other than the client itself
    is found in [peerConnections]. *)
Lemma room_users_ensures users uid st :
  uid ∈ users → uid ≠ JStr (userId st) →
  is_Some (pc_lookup uid (on_room_users users st).1.1).
Proof.
  intros Hin Hne. unfold on_room_users.
  assert (is_Some (pc_lookup uid (room_users_loop users st).1.1)) as Hs;
    [|by destruct (room_users_loop users st) as [[? ?] ?]].
  revert st Hne. induction Hin as [uid users|uid uid' users Hin IH]; intros st Hne; simpl.
  - rewrite decide_True by done.
    pose proof (createPeerConnection_ensures uid st) as He.
    destruct (createPeerConnection uid st) as [[[st1 ?] eff] tasks]. simpl in He.
    pose proof (room_users_loop_keeps users uid st1 He).
    by destruct (room_users_loop users st1) as [[st2 eff'] tasks'].
  - case_decide; [|by apply IH].
    pose proof (createPeerConnection_userId uid' st) as Hu.
    destruct (createPeerConnection uid' st) as [[[st1 ?] eff] tasks]. simpl in Hu.
    assert (uid ≠ JStr (userId st1)) as Hne1 by congruence.
    specialize (IH st1 Hne1).
    by destruct (room_users_loop users st1) as [[st2 eff'] tasks'].
Qed.

(** An offer from a participant that already has a connection: nothing is
    made, nothing is asked of [createOffer]. *)
Lemma handleOffer_present o uid pc st :
  peerConnections st !! prop_key uid = Some pc →
  handleOffer o uid st
  = (st, [RtcSetRemoteDescription (pc_id pc) o], [AnswerPending pc o uid]).
Proof.
  intros E. unfold handleOffer.
  by rewrite (createPeerConnection_present uid (PcOwn pc)) by by apply pc_lookup_own.
Qed.

Lemma pc_lookup_own_inv uid r st :
  pc_lookup uid st = Some r → prop_key uid ∉ object_prototype_keys →
  ∃ pc, r = PcOwn pc ∧ peerConnections st !! prop_key uid = Some pc.
Proof.
  unfold pc_lookup. destruct (peerConnections st !! prop_key uid) as [pc|].
  - intros [= <-] _. eauto.
  - case_bool_decide; [done | discriminate].
Qed.

(** C10. For a participant that has a connection in [peerConnections],
    [createPeerConnection] returns that connection and does nothing else:
    the state is the same (no second link), there is no effect and no
    offer is left pending.  So when a roster that names a participant is
    followed by an offer from it, the roster leaves one connection under
    its id, and the offer is answered on that connection without making
    another or offering again. *)
Theorem C10_createPeerConnection_idempotent (st : client) (uid : jsval) :
  (∀ pc, peerConnections st !! prop_key uid = Some pc →
     createPeerConnection uid st = (st, PcOwn pc, [], [])) ∧
  (∀ users o,
     uid ∈ users → uid ≠ JStr (userId st) →
     prop_key uid ∉ object_prototype_keys →
     let st1 := (on_room_users users st).1.1 in
     ∃ pc, peerConnections st1 !! prop_key uid = Some pc ∧
           on_offer o uid st1
           = (st1, [RtcSetRemoteDescription (pc_id pc) o], [AnswerPending pc o uid])).
Proof.
  split.
  - intros pc E. by apply createPeerConnection_present, pc_lookup_own.
  - intros users o Hin Hne Hkey st1.
    destruct (room_users_ensures users uid st Hin Hne) as [r Hr]. fold st1 in Hr.
    destruct (pc_lookup_own_inv uid r st1 Hr Hkey) as (pc & -> & E).
    exists pc. split; [done|]. by apply handleOffer_present.
Qed.

(** The claim at participant [p2]: with its connection in place, and from
    a roster followed by an offer. *)
Lemma C10_createPeerConnection_idempotent_witness :
  createPeerConnection (JStr "p2") linked_to_p2
  = (linked_to_p2, PcOwn {| pc_id := 0; pc_tracks := 1 |}, [], []) ∧
  ∃ pc, peerConnections (on_room_users [JStr "p1"; JStr "p2"] in_lobby).1.1 !! "p2"
        = Some pc ∧
        on_offer (JStr "sdp") (JStr "p2") (on_room_users [JStr "p1"; JStr "p2"] in_lobby).1.1
        = ((on_room_users [JStr "p1"; JStr "p2"] in_lobby).1.1,
           [RtcSetRemoteDescription (pc_id pc) (JStr "sdp")],
           [AnswerPending pc (JStr "sdp") (JStr "p2")]).
Proof.
  split.
  - apply (C10_createPeerConnection_idempotent linked_to_p2 (JStr "p2")).
    reflexivity.
  - apply (C10_createPeerConnection_idempotent in_lobby (JStr "p2")).
    + apply (bool_decide_unpack _). by vm_compute.
    + simpl. congruence.
    + apply (bool_decide_unpack _). by vm_compute.
Defined.

(** When [user-connected] names a participant without connection, the
    handler asks the new connection for an offer, and the offer is sent
    once the browser has produced it. *)
Lemma user_connected_offers w uid o st :
  pc_lookup uid st = None →
  createOffer_result w (next_pc st) = Some o →
  setLocalDescription_ok w (next_pc st) o = true →
  RtcCreateOffer (next_pc st) ∈ (on_user_connected uid st).1.2 ∧
  Emit (offer (roomId st) o uid) ∈ settle w (on_user_connected uid st).
Proof.
  intros E Ho Hl. unfold on_user_connected, settle.
  rewrite createPeerConnection_absent by done. simpl.
  unfold createOffer_resume. simpl. rewrite Ho, Hl. split.
  - apply list_elem_of_further, list_elem_of_here.
  - do 3 apply list_elem_of_further. apply list_elem_of_here.
Qed.

(** C6, at a client in [lobby] that learns of [p2]. The handler makes the
    connection for [p2], asks it for an offer and leaves the rest of
    [createOffer] pending; with a browser that produces the offer, the
    offer for [p2] is emitted. *)
Theorem C6_user_connected_sends_offer :
  let res := on_user_connected (JStr "p2") in_lobby in
  peerConnections res.1.1 !! "p2" = Some {| pc_id := 0; pc_tracks := 1 |} ∧
  res.1.2 = [NewRTCPeerConnection 0; RtcCreateOffer 0; AddUserToList (JStr "p2")] ∧
  res.2 = [OfferPending {| pc_id := 0; pc_tracks := 1 |} (JStr "p2")] ∧
  emits (settle browser_ok res) = [offer (Some "lobby") "sdp" (JStr "p2")].
Proof. cbv zeta. split_and!; reflexivity. Qed.

(** C8. When [getUserMedia] fails, [joinRoom] emits nothing to the server,
    so no [join-room], keeps [localStream] as it was, and shows an error:
    the one of the failed join, or the one asking for a room name when the
    room field was blank and the microphone was not even asked for. *)
Theorem C8_capture_failure_aborts_join (roomInput usernameInput : string) (st : client) :
  let res := joinRoom roomInput usernameInput None st in
  emits res.2 = [] ∧
  localStream res.1 = localStream st ∧
  (if truthy (Some (trim roomInput))
   then res.2 = [ConsoleError "Error accessing microphone:";
                 ConsoleError "Error joining room:";
                 ShowError "Failed to join room: Microphone access denied. Please allow microphone permissions."]
   else res.2 = [ShowError "Please enter a room name"]).
Proof.
  cbv zeta. unfold joinRoom. cbn [roomId with_room].
  destruct (truthy (Some (trim roomInput))); simpl; done.
Qed.

(** C9. With [roomId] unset (or blank), [startTalking] followed by
    [stopTalking] emits nothing to the server; the two calls only set the
    [enabled] flag of the local tracks and the look of the button. *)
Theorem C9_talking_without_room_emits_nothing (st : client) :
  truthy (roomId st) = false →
  let r1 := startTalking st in
  let r2 := stopTalking r1.1 in
  emits r1.2 = [] ∧ emits r2.2 = [] ∧
  roomId r2.1 = roomId st ∧
  localStream r2.1
  = (λ tracks : list bool, (λ _ : bool, false) <$> tracks) <$> localStream st.
Proof.
  intros Hr. unfold startTalking, stopTalking.
  destruct (localStream st) as [tracks|] eqn:E; simpl; rewrite ?E, ?Hr; simpl.
  - split_and!; try done. by rewrite <- list_fmap_compose.
  - by rewrite E.
Qed.

(** The claim at a client that holds a stream and is in no room. *)
Lemma C9_talking_without_room_emits_nothing_witness :
  emits (startTalking no_room).2 = [] ∧
  emits (stopTalking (startTalking no_room).1).2 = [] ∧
  roomId (stopTalking (startTalking no_room).1).1 = None ∧
  localStream (stopTalking (startTalking no_room).1).1 = Some [false].
Proof.
  apply (C9_talking_without_room_emits_nothing no_room). reflexivity.
Defined.

(** A blank room field never reaches the server. *)
Lemma joinRoom_blank_room roomInput usernameInput media st :
  trim roomInput = "" → emits (joinRoom roomInput usernameInput media st).2 = [].
Proof. intros E. unfold joinRoom. cbn [roomId with_room truthy]. by rewrite E. Qed.

End ClientProps.

(** ** More on the server *)

Module ServerMore.
Import Server ServerSpec MoreSpec ServerRegistry ServerRelay.

Lemma mutate_mutate {K V : Type} `{EqDecision K} (k : K) (f g : V → V) m :
  JsMap.mutate k f (JsMap.mutate k g m) = JsMap.mutate k (f ∘ g) m.
Proof.
  unfold JsMap.mutate. rewrite <- list_fmap_compose.
  apply list_fmap_ext. intros _ [k0 v0] _. simpl.
  destruct (decide (k0 = k)); simpl; [by rewrite decide_True | by rewrite decide_False].
Qed.

Lemma mutate_absent {K V : Type} `{EqDecision K} (k : K) (f : V → V) m :
  JsMap.get k m = None → JsMap.mutate k f m = m.
Proof.
  intros E. apply mutate_id. intros v Hin. apply get_None_keys in E.
  destruct E. apply list_elem_of_fmap. by exists (k, v).
Qed.

Lemma mutate_app {K V : Type} `{EqDecision K} (k : K) (f : V → V) m1 m2 :
  JsMap.mutate k f (m1 ++ m2) = JsMap.mutate k f m1 ++ JsMap.mutate k f m2.
Proof. unfold JsMap.mutate. apply fmap_app. Qed.

Lemma filter_all {A} (P : A → Prop) `{∀ x, Decision (P x)} (l : list A) :
  Forall P l → filter P l = l.
Proof.
  induction 1 as [|x l Hx _ IH]; [done|].
  by rewrite filter_cons_True, IH.
Qed.

Lemma mutate_singleton {K V : Type} `{EqDecision K} (k : K) (f : V → V) v :
  JsMap.mutate k f [(k, v)] = [(k, f v)].
Proof. unfold JsMap.mutate. simpl. by rewrite decide_True. Qed.

Lemma delete_absent {K V : Type} `{EqDecision K} (k : K) (m : list (K * V)) :
  JsMap.get k m = None → JsMap.delete k m = m.
Proof.
  intros E. unfold JsMap.delete. apply filter_all, Forall_forall.
  intros [k0 v0] Hin Heq. simpl in Heq. subst k0. apply get_None_keys in E.
  destruct E. apply list_elem_of_fmap. by exists (k, v0).
Qed.

Lemma set_delete_add `{EqDecision A} (x : A) (s : list A) :
  x ∉ s → JsSet.delete x (JsSet.add x s) = s.
Proof.
  intros Hx. unfold JsSet.add, JsSet.has. rewrite bool_decide_eq_false_2 by done.
  unfold JsSet.delete. rewrite filter_app.
  fold (JsSet.delete x s). rewrite set_delete_absent by done.
  rewrite filter_cons_False by (intros ?; done). apply app_nil_r.
Qed.

Lemma sio_sessions_leave sid r t :
  sio_sessions r (sio_leave sid r t) = JsSet.delete sid (sio_sessions r t).
Proof.
  unfold sio_leave, sio_sessions.
  destruct (JsMap.get r t) as [l|] eqn:E; [|by rewrite E].
  case_decide as Hz.
  - apply nil_length_inv in Hz.
    rewrite get_mutate, decide_True, E in Hz by done. simpl in Hz.
    by rewrite get_delete, decide_True.
  - by rewrite get_mutate, decide_True, E.
Qed.

(** X1. [leave-room] takes the named participant out of the named room,
    whichever session sends it, keeps the other members in their order,
    and changes the members of no other room. *)
Theorem leave_room_removes (sid : string) (r u : jsval) (st : server) (r' : jsval) :
  let st' := (on_leave_room sid r u st).1 in
  (u ∉ membersOf r (activeRooms st')) ∧
  (membersOf r' (activeRooms st')
   = if decide (r' = r) then filter (λ v, v ≠ u) (membersOf r' (activeRooms st))
     else membersOf r' (activeRooms st)).
Proof.
  cbv zeta. split.
  - rewrite membersOf_leave, decide_True by done.
    rewrite set_delete_elem_of. tauto.
  - apply membersOf_leave.
Qed.

(** X2. [leave-room] tells every other session of the room that the
    participant named in the message has gone, whether or not it was a
    member, and takes the sending session out of the room. *)
Theorem leave_room_deliveries (sid : string) (r u : jsval) (st : server)
    (x : string) (m : notice) :
  let res := on_leave_room sid r u st in
  ((x, m) ∈ res.2 ↔
     m = user_disconnected u ∧ x ∈ sio_sessions r (sio_rooms st) ∧ x ≠ sid) ∧
  sio_sessions r (sio_rooms res.1) = filter (λ y, y ≠ sid) (sio_sessions r (sio_rooms st)).
Proof.
  cbv zeta. unfold on_leave_room. cbn [fst snd sio_rooms]. split.
  - rewrite to_emit_elem_of, sio_sessions_leave, set_delete_elem_of. tauto.
  - apply sio_sessions_leave.
Qed.

Lemma join_leave_registry sid sid' r u st :
  wf (activeRooms st) → u ∉ membersOf r (activeRooms st) →
  activeRooms (on_leave_room sid' r u (on_join_room sid r u st).1).1 = activeRooms st.
Proof.
  intros [Hk Hw] Hu. unfold on_leave_room, on_join_room. cbn [fst activeRooms].
  unfold membersOf in Hu.
  destruct (JsMap.get r (activeRooms st)) as [us|] eqn:E; simpl in Hu.
  - assert (JsMap.has r (activeRooms st) = true) as -> by (unfold JsMap.has; by rewrite E).
    cbn [negb].
    assert (JsMap.has r (JsMap.mutate r (JsSet.add u) (activeRooms st)) = true) as ->.
    { unfold JsMap.has. by rewrite get_mutate, decide_True, E. }
    rewrite mutate_mutate.
    rewrite (mutate_id r _ (activeRooms st)).
    + rewrite decide_False; [done|]. intros Hz%nil_length_inv.
      unfold membersOf in Hz. rewrite E in Hz. simpl in Hz. subst us.
      by apply get_elem_of, Hw in E as [? _].
    + intros v Hv. apply wf_entry in Hv; [|done]. simplify_eq. simpl.
      by apply set_delete_add.
  - assert (JsMap.has r (activeRooms st) = false) as -> by (by apply has_get_None).
    cbn [negb]. rewrite set_fresh by done.
    rewrite mutate_app, (mutate_absent r _ (activeRooms st)), mutate_singleton by done.
    assert (JsMap.has r (activeRooms st ++ [(r, JsSet.add u [])]) = true) as ->.
    { unfold JsMap.has.
      destruct (JsMap.get r (activeRooms st ++ [(r, JsSet.add u [])])) eqn:E'; [done|].
      apply get_None_keys in E'. destruct E'. rewrite fmap_app.
      apply elem_of_app. right. simpl. left. }
    rewrite mutate_app, (mutate_absent r _ (activeRooms st)), mutate_singleton by done.
    rewrite (set_delete_add u []) by apply not_elem_of_nil.
    rewrite decide_True.
    + unfold JsMap.delete. rewrite filter_app.
      fold (JsMap.delete r (activeRooms st)). rewrite delete_absent by done.
      rewrite filter_cons_False by (simpl; auto). apply app_nil_r.
    + unfold membersOf.
      assert (JsMap.get r (activeRooms st ++ [(r, [])]) = Some []) as ->; [|done].
      rewrite <- (set_fresh r [] (activeRooms st)) by done.
      by rewrite get_set, decide_True.
Qed.

(** X3. After any sequence of events, when a participant that is not a
    member of a room joins it and then leaves it, from whichever sessions,
    the registry is again what it was: the same rooms with the same
    members in the same order. *)
Theorem join_then_leave_restores_registry (es : list event) (sid sid' : string)
    (r u : jsval) :
  let st := run es init in
  u ∉ membersOf r (activeRooms st) →
  activeRooms (on_leave_room sid' r u (on_join_room sid r u st).1).1 = activeRooms st.
Proof. cbv zeta. intros Hu. apply join_leave_registry; [apply wf_run | done]. Qed.

(** The round trip of [p3] through [lobby] when [p1] and [p2] are in it. *)
Lemma join_then_leave_restores_registry_witness :
  let st := run [JoinRoom "s1" (JStr "lobby") (JStr "p1");
                 JoinRoom "s2" (JStr "lobby") (JStr "p2")] init in
  activeRooms (on_leave_room "s3" (JStr "lobby") (JStr "p3")
                 (on_join_room "s3" (JStr "lobby") (JStr "p3") st).1).1
  = activeRooms st.
Proof.
  apply (join_then_leave_restores_registry
           [JoinRoom "s1" (JStr "lobby") (JStr "p1");
            JoinRoom "s2" (JStr "lobby") (JStr "p2")]).
  apply (bool_decide_unpack _). by vm_compute.
Defined.

Lemma disconnect_loop_keys sid sio ar r :
  r ∈ (disconnect_loop sid sio ar).1.*1 → r ∈ ar.*1.
Proof.
  induction ar as [|[r0 us0] ar IH]; simpl; [done|].
  destruct (disconnect_loop sid sio ar) as [rest' out]. simpl in *.
  destruct (JsSet.has (JStr sid) us0); [case_decide|]; simpl;
    rewrite ?elem_of_cons; naive_solver.
Qed.

Lemma disconnect_loop_get sid sio ar r :
  NoDup ar.*1 →
  default [] (JsMap.get r (disconnect_loop sid sio ar).1)
  = JsSet.delete (JStr sid) (default [] (JsMap.get r ar)).
Proof.
  induction ar as [|[r0 us0] ar IH]; simpl; [done|].
  intros [Hk Hnd]%NoDup_cons. specialize (IH Hnd).
  pose proof (disconnect_loop_keys sid sio ar r) as Hsub.
  destruct (disconnect_loop sid sio ar) as [rest' out]. simpl in *.
  assert (r = r0 → JsMap.get r rest' = None) as Hnone.
  { intros ->. apply get_None_keys. intros ?%Hsub. done. }
  unfold JsSet.has. case_bool_decide as Hin.
  - case_decide as Hz; simpl.
    + apply nil_length_inv in Hz.
      destruct (decide (r = r0)) as [->|]; [|done].
      rewrite Hnone by done. simpl. by rewrite Hz.
    + destruct (decide (r = r0)); done.
  - simpl. destruct (decide (r = r0)); [|done].
    simpl. by rewrite set_delete_absent.
Qed.

Lemma disconnect_loop_clean sid sio ar r us :
  (r, us) ∈ (disconnect_loop sid sio ar).1 → JStr sid ∉ us.
Proof.
  induction ar as [|[r0 us0] ar IH]; simpl; [by intros ?%not_elem_of_nil|].
  destruct (disconnect_loop sid sio ar) as [rest' out]. simpl in *.
  unfold JsSet.has. case_bool_decide as Hin.
  - case_decide; simpl; [done|].
    intros [?|?]%elem_of_cons; [|auto]. simplify_eq.
    rewrite set_delete_elem_of. tauto.
  - simpl. intros [?|?]%elem_of_cons; [by simplify_eq | auto].
Qed.

Lemma disconnect_loop_out sid sio ar x m :
  (x, m) ∈ (disconnect_loop sid sio ar).2 → x ≠ sid ∧ m = user_disconnected (JStr sid).
Proof.
  induction ar as [|[r0 us0] ar IH]; simpl; [by intros ?%not_elem_of_nil|].
  destruct (disconnect_loop sid sio ar) as [rest' out]. simpl in *.
  destruct (JsSet.has (JStr sid) us0); simpl; [|done].
  intros [Hin%to_emit_elem_of|?]%elem_of_app; [tauto | auto].
Qed.

Lemma sio_leave_all_fixed sid t :
  Forall (λ p : jsval * list string, (sid ∉ p.2) ∧ p.2 ≠ []) t → sio_leave_all sid t = t.
Proof.
  induction 1 as [|[r l] t [Hx Hne] _ IH]; [done|].
  unfold sio_leave_all in *. rewrite fmap_cons. simpl in Hx, Hne. cbn [fst snd].
  rewrite set_delete_absent by done.
  rewrite filter_cons_True by done. by rewrite IH.
Qed.

Lemma sio_leave_all_clean sid t :
  Forall (λ p : jsval * list string, (sid ∉ p.2) ∧ p.2 ≠ []) (sio_leave_all sid t).
Proof.
  apply Forall_forall. intros [r l] [Hne Hin]%list_elem_of_filter.
  apply list_elem_of_fmap in Hin as ([r0 l0] & ? & _). simplify_eq. simpl in *.
  split; [|done]. rewrite set_delete_elem_of. tauto.
Qed.

(** X4. After any sequence of events, a closing session takes its own
    session id out of every room of the registry and nothing else: the
    members of each room are those from before without that id, in their
    order; the only message anyone is sent is [user-disconnected] with
    that id, and the closing session is sent nothing. *)
Theorem disconnect_removes_session_id_only (es : list event) (sid : string) (r : jsval) :
  let st := run es init in
  let res := on_disconnect sid st in
  membersOf r (activeRooms res.1)
  = filter (λ v, v ≠ JStr sid) (membersOf r (activeRooms st)) ∧
  Forall (λ d, d.1 ≠ sid ∧ d.2 = user_disconnected (JStr sid)) res.2.
Proof.
  cbv zeta. pose proof (wf_run es) as [Hk _]. unfold on_disconnect.
  pose proof (disconnect_loop_get sid (sio_leave_all sid (sio_rooms (run es init)))
                _ r Hk) as Hget.
  pose proof (disconnect_loop_out sid (sio_leave_all sid (sio_rooms (run es init)))
                (activeRooms (run es init))) as Hout.
  destruct (disconnect_loop _ _ _) as [ar out]. simpl in *. split; [done|].
  apply Forall_forall. intros [x m] Hin. by apply Hout.
Qed.

(** X5. Closing a session twice is closing it once: the second run of the
    [disconnect] handler changes neither the registry nor the rooms and
    sends nothing. *)
Theorem disconnect_twice (sid : string) (st : server) :
  on_disconnect sid (on_disconnect sid st).1 = ((on_disconnect sid st).1, []).
Proof.
  unfold on_disconnect at 2 3.
  pose proof (disconnect_loop_clean sid (sio_leave_all sid (sio_rooms st))
                (activeRooms st)) as Hclean.
  destruct (disconnect_loop _ _ (activeRooms st)) as [ar out]. simpl in *.
  unfold on_disconnect. cbn [activeRooms sio_rooms].
  rewrite (sio_leave_all_fixed sid (sio_leave_all sid _))
    by apply sio_leave_all_clean.
  by rewrite disconnect_loop_other_id.
Qed.

(** X6. No handler sends a session what it broadcasts itself: of all that
    an event causes to be delivered, the only message that goes to the
    session the event came from is the [room-users] that answers its
    [join-room]. *)
Theorem sender_gets_only_room_users (e : event) (st : server) :
  Forall (λ d, d.1 ≠ sender e ∨ is_room_users d.2 = true) (handle e st).2.
Proof.
  apply Forall_forall. intros [x m].
  destruct e; cbn [handle sender fst snd];
    unfold on_connection, on_join_room, on_offer, on_answer, on_ice_candidate,
      on_user_talking, on_leave_room; cbn [fst snd].
  - by intros ?%not_elem_of_nil.
  - intros [Hin%to_emit_elem_of|Hin%list_elem_of_singleton]%elem_of_app;
      [left; tauto | right; by simplify_eq].
  - intros Hin%to_emit_elem_of. left. tauto.
  - intros Hin%to_emit_elem_of. left. tauto.
  - intros Hin%to_emit_elem_of. left. tauto.
  - intros Hin%to_emit_elem_of. left. tauto.
  - intros Hin%to_emit_elem_of. left. tauto.
  - unfold on_disconnect.
    pose proof (disconnect_loop_out sid (sio_leave_all sid (sio_rooms st))
                  (activeRooms st) x m) as Hout.
    destruct (disconnect_loop _ _ _) as [ar out]. simpl in *.
    intros Hin. left. by apply Hout.
Qed.

(** X7. The relay handlers do not ask whether the sender is in the room it
    names: a message from a session outside the room is delivered to every
    session of the room. *)
Theorem relay_from_outside_the_room (sid : string) (d : payload) (st : server) :
  sid ∉ sio_sessions (room d) (sio_rooms st) →
  (on_offer sid d st).2
  = ((λ x, (x, relayed_offer (offer d) (from d))) <$> sio_sessions (room d) (sio_rooms st)) ∧
  (on_user_talking sid d st).2
  = ((λ x, (x, relayed_user_talking (userId d) (isTalking d)))
       <$> sio_sessions (room d) (sio_rooms st)).
Proof.
  intros Hout. unfold on_offer, on_user_talking, to_emit, sio_to. cbn [snd].
  rewrite filter_all; [done|].
  apply Forall_forall. by intros x ? ->.
Qed.

(** Session [s9], which joined nothing, sends an offer naming [lobby]. *)
Lemma relay_from_outside_the_room_witness :
  (on_offer "s9" offer_to_p2 three_in_lobby).2
  = [("s1", relayed_offer (JStr "sdp") JUndefined);
     ("s2", relayed_offer (JStr "sdp") JUndefined);
     ("s3", relayed_offer (JStr "sdp") JUndefined)].
Proof.
  apply (relay_from_outside_the_room "s9" offer_to_p2 three_in_lobby).
  apply (bool_decide_unpack _). by vm_compute.
Defined.

End ServerMore.

(** ** More on the client *)

Module ClientMore.
Import Client ClientSpec ClientLifecycle MoreSpec ClientProps.






(** White space that is not ASCII is removed like the rest: a room field
    with only a no-break space is blank, and [lobby] between a no-break
    space and an ideographic space is [lobby]. *)
Example trim_unicode : trim nbsp = "" ∧ trim lobby_in_wide_space = "lobby".
Proof. split; reflexivity. Qed.

(** A room field that holds only a no-break space is blank: nothing is
    sent and the microphone is not asked for. *)
Example joinRoom_nbsp_room (media : option (list bool)) :
  joinRoom nbsp "" media no_room
  = (with_room (Some "") "Anonymous" no_room, [ShowError "Please enter a room name"]).
Proof. reflexivity. Qed.



(** X9. In a room and with a stream, pressing and releasing the talk
    button sends [user-talking] with the client's id, first [true] then
    [false], and leaves every track switched off; without a stream both
    calls do nothing at all, in a room or not. *)
Theorem talk_cycle (st : client) :
  let r1 := startTalking st in
  let r2 := stopTalking r1.1 in
  match localStream st with
  | Some tracks =>
      localStream r1.1 = Some (replicate (length tracks) true) ∧
      localStream r2.1 = Some (replicate (length tracks) false) ∧
      emits (r1.2 ++ r2.2)
      = (if truthy (roomId st)
         then [user_talking (roomId st) (userId st) true;
               user_talking (roomId st) (userId st) false]
         else [])
  | None => r1 = (st, []) ∧ r2 = (st, [])
  end.
Proof.
  cbv zeta. unfold startTalking, stopTalking.
  destruct (localStream st) as [tracks|] eqn:E; simpl; rewrite ?E; [|done].
  assert (∀ (b : bool) (l : list bool),
            (λ _ : bool, b) <$> l = replicate (length l) b) as Hrep.
  { intros b l. induction l; simpl; [done | by f_equal]. }
  split_and!.
  - by rewrite Hrep.
  - by rewrite !Hrep, length_replicate.
  - by destruct (truthy (roomId st)).
Qed.

Lemma emits_of_app l1 l2 : emits_of (l1 ++ l2) = emits_of l1 ++ emits_of l2.
Proof. unfold emits_of, emits. by rewrite !omap_app. Qed.

Lemma removePeerConnection_own ha k pc st :
  peerConnections st !! k = Some pc →
  removePeerConnection ha (JStr k) st
  = (with_peerConnections (delete k (peerConnections st)) st,
     (if ha (pc_id pc) then [RemoveAudioElement (pc_id pc)] else [])
     ++ [ClosePeerConnection (pc_id pc)], Normal).
Proof.
  intros E. unfold removePeerConnection.
  by rewrite (pc_lookup_own (JStr k) pc st E).
Qed.

(** The loop of [leaveRoom] over keys that are all in the map: it ends
    normally, the keys are gone, their connections closed, nothing sent. *)
Lemma remove_all_own ha keys st :
  NoDup keys → (∀ k, k ∈ keys → is_Some (peerConnections st !! k)) →
  ∃ m' acts,
    remove_all ha keys st = (with_peerConnections m' st, acts, Normal) ∧
    (∀ k, m' !! k = if decide (k ∈ keys) then None else peerConnections st !! k) ∧
    emits_of acts = [] ∧
    (∀ k pc, k ∈ keys → peerConnections st !! k = Some pc →
       ClosePeerConnection (pc_id pc) ∈ acts).
Proof.
  revert st. induction keys as [|k keys IH]; intros st Hnd Hown.
  - exists (peerConnections st), []. split_and!; try done.
    + by destruct st.
    + intros k pc []%not_elem_of_nil.
  - apply NoDup_cons in Hnd as [Hk Hnd].
    destruct (Hown k) as [pc Hpc]; [left|].
    cbn [remove_all]. rewrite (removePeerConnection_own ha k pc st Hpc).
    set (st1 := with_peerConnections (delete k (peerConnections st)) st).
    destruct (IH st1 Hnd) as (m' & acts & Hrun & Hm' & He & Hclose).
    { intros k' Hin. cbn. rewrite lookup_delete_ne; [apply Hown; by right|].
      by intros ->. }
    rewrite Hrun. exists m', (((if ha (pc_id pc) then [RemoveAudioElement (pc_id pc)] else [])
                              ++ [ClosePeerConnection (pc_id pc)]) ++ acts).
    split_and!.
    + done.
    + intros k'. rewrite Hm'. cbn. rewrite lookup_delete.
      destruct (decide (k' = k)) as [->|Hne].
      * rewrite (decide_True (P := k ∈ k :: keys)) by left.
        by repeat case_decide.
      * rewrite (decide_False (P := k = k')) by done.
        destruct (decide (k' ∈ keys)).
        -- by rewrite decide_True by by right.
        -- rewrite decide_False; [done|]. by intros [?|?]%elem_of_cons.
    + rewrite emits_of_app, He. by destruct (ha (pc_id pc)).
    + intros k' pc' [->|Hin]%elem_of_cons Hl.
      * simplify_eq. apply elem_of_app. left. apply elem_of_app. right. left.
      * apply elem_of_app. right. apply (Hclose k'); [done|].
        cbn. rewrite lookup_delete_ne; [done|]. by intros ->.
Qed.

Lemma object_keys_own st k :
  k ∈ object_keys st ↔ is_Some (peerConnections st !! k).
Proof.
  unfold object_keys. rewrite list_elem_of_fmap. split.
  - intros ([k0 pc] & -> & Hin%elem_of_map_to_list). by exists pc.
  - intros [pc Hpc]. exists (k, pc). split; [done|]. by apply elem_of_map_to_list.
Qed.

(** X10. [leaveRoom] always returns normally.  It sends [leave-room] with
    the room and the client's id when a room was recorded and nothing
    otherwise, closes every connection it holds, and leaves the client
    with no room, no connection and no stream. *)
Theorem leaveRoom_resets (ha : nat → bool) (st : client) :
  let res := leaveRoom ha st in
  res.2 = Normal ∧
  truthy (roomId res.1.1) = false ∧
  peerConnections res.1.1 = ∅ ∧
  localStream res.1.1 = None ∧
  emits_of res.1.2
  = (if truthy (roomId st)
     then [leave_room (default "" (roomId st)) (userId st)] else []) ∧
  map_Forall (λ _ pc, ClosePeerConnection (pc_id pc) ∈ res.1.2) (peerConnections st).
Proof.
  cbv zeta. unfold leaveRoom.
  set (first := if truthy (roomId st) then _ else _).
  assert (∃ st1 acts1, first = (st1, acts1) ∧
            peerConnections st1 = peerConnections st ∧
            localStream st1 = localStream st ∧
            truthy (roomId st1) = false ∧
            emits_of acts1 = (if truthy (roomId st)
                              then [leave_room (default "" (roomId st)) (userId st)]
                              else [])) as (st1 & acts1 & -> & Hpc & Hls & Hr & He).
  { subst first. destruct (truthy (roomId st)) eqn:E; eauto 10. }
  destruct (remove_all_own ha (object_keys st1) st1) as (m' & acts & Hrun & Hm' & Hea & Hclose).
  { apply NoDup_fst_map_to_list. }
  { intros k. apply object_keys_own. }
  rewrite Hrun.
  assert (m' = ∅) as ->.
  { apply map_empty. intros k. rewrite Hm'. case_decide as Hin; [done|].
    destruct (peerConnections st1 !! k) eqn:E; [|done].
    destruct Hin. apply object_keys_own. by eexists. }
  assert (map_Forall (λ _ pc, ClosePeerConnection (pc_id pc) ∈ acts) (peerConnections st))
    as Hall.
  { intros k pc Hl. rewrite <- Hpc in Hl. apply (Hclose k); [|done].
    apply object_keys_own. by eexists. }
  change (localStream (with_peerConnections ∅ st1)) with (localStream st1).
  rewrite Hls.
  destruct (localStream st) as [tracks|]; cbn [fst snd];
    (split_and!;
     [ done
     | exact Hr
     | done
     | done
     | rewrite !emits_of_app, Hea, He; cbn; by rewrite app_nil_r
     | intros k pc Hl; apply elem_of_app; right; apply elem_of_app; left;
       by apply (Hall k) ]).
Qed.

Lemma leaveRoom_idle ha st :
  truthy (roomId st) = false → peerConnections st = ∅ → localStream st = None →
  leaveRoom ha st = (st, [ShowConnectionSection; Did (UpdateStatus "Left room")], Normal).
Proof.
  intros Hr Hpc Hls. unfold leaveRoom, object_keys. rewrite Hr, Hpc, map_to_list_empty.
  cbn. by rewrite Hls.
Qed.

(** X11. After [leaveRoom], what depends on the room or on the stream is
    silent: a second [leaveRoom] changes nothing and sends nothing, the
    talk button does nothing, and a candidate found by a connection is not
    sent.  The handlers of the socket are not silent: they stay in place
    and [createOffer] does not look at the room, so a [user-connected]
    that arrives afterwards still makes a connection and, with a browser
    that produces the offer, sends an offer whose room is the empty
    [roomId]. *)
Theorem after_leaveRoom_room_paths_silent_handlers_live (ha : nat → bool) (st : client)
    (uid : jsval) (c : option string) (w : webrtc) (mine : string) :
  let st' := (leaveRoom ha st).1.1 in
  leaveRoom ha st'
  = (st', [ShowConnectionSection; Did (UpdateStatus "Left room")], Normal) ∧
  startTalking st' = (st', []) ∧
  stopTalking st' = (st', []) ∧
  onicecandidate uid c st' = [] ∧
  truthy (roomId st') = false ∧
  (prop_key uid ∉ object_prototype_keys →
   createOffer_result w (next_pc st') = Some mine →
   setLocalDescription_ok w (next_pc st') mine = true →
   emits (settle w (on_user_connected uid st')) = [offer (roomId st') mine uid]).
Proof.
  cbv zeta. destruct (leaveRoom_resets ha st) as (_ & Hr & Hpc & Hls & _).
  cbv zeta in *. split_and!.
  - by apply leaveRoom_idle.
  - unfold startTalking. by rewrite Hls.
  - unfold stopTalking. by rewrite Hls.
  - unfold onicecandidate. rewrite Hr. by destruct c.
  - done.
  - intros Hkey Ho Hl. set (st' := (leaveRoom ha st).1.1) in *.
    assert (pc_lookup uid st' = None) as E.
    { unfold pc_lookup. rewrite Hpc, lookup_empty.
      by rewrite bool_decide_eq_false_2. }
    unfold on_user_connected, settle.
    rewrite createPeerConnection_absent by done. cbn.
    unfold createOffer_resume. cbn. by rewrite Ho, Hl.
Qed.

(** After leaving [lobby] with two connections, [p4] turns up. *)
Lemma after_leaveRoom_room_paths_silent_handlers_live_witness :
  emits (settle browser_ok
           (on_user_connected (JStr "p4") (leaveRoom (λ _, false) two_links).1.1))
  = [offer None "sdp" (JStr "p4")].
Proof.
  destruct (after_leaveRoom_room_paths_silent_handlers_live (λ _, false) two_links
              (JStr "p4") None browser_ok "sdp") as (_ & _ & _ & _ & _ & H).
  apply H.
  - apply (bool_decide_unpack _). by vm_compute.
  - reflexivity.
  - reflexivity.
Defined.

(** X12. A join that fails at the microphone still records the room name:
    nothing was sent to the server for the join, yet a [leaveRoom] after
    it sends [leave-room] for that room. *)
Theorem failed_join_then_leave (ha : nat → bool) (roomInput usernameInput : string)
    (st : client) :
  trim roomInput ≠ "" →
  let res := joinRoom roomInput usernameInput None st in
  emits res.2 = [] ∧
  roomId res.1 = Some (trim roomInput) ∧
  emits_of (leaveRoom ha res.1).1.2 = [leave_room (trim roomInput) (userId st)].
Proof.
  intros Hne. cbv zeta.
  assert (joinRoom roomInput usernameInput None st
          = (with_room (Some (trim roomInput))
               (if bool_decide (trim usernameInput = "") then "Anonymous"
                else trim usernameInput) st,
             [ConsoleError "Error accessing microphone:";
              ConsoleError "Error joining room:";
              ShowError ("Failed to join room: " +:+
                "Microphone access denied. Please allow microphone permissions.")]))
    as ->.
  { unfold joinRoom. cbn [roomId with_room truthy].
    by rewrite bool_decide_eq_false_2 by done. }
  split_and!; [done..|].
  destruct (leaveRoom_resets ha (with_room (Some (trim roomInput))
              (if bool_decide (trim usernameInput = "") then "Anonymous"
               else trim usernameInput) st)) as (_ & _ & _ & _ & He & _).
  cbv zeta in He. cbn [fst]. rewrite He. cbn [roomId with_room truthy userId].
  by rewrite bool_decide_eq_false_2 by done.
Qed.

(** A join to [lobby] refused the microphone, then a leave. *)
Lemma failed_join_then_leave_witness :
  emits (joinRoom "lobby" "" None no_room).2 = [] ∧
  roomId (joinRoom "lobby" "" None no_room).1 = Some "lobby" ∧
  emits_of (leaveRoom (λ _, false) (joinRoom "lobby" "" None no_room).1).1.2
  = [leave_room "lobby" "p1"].
Proof.
  apply (failed_join_then_leave (λ _, false) "lobby" "" no_room). by vm_compute.
Defined.

(** X13. Making a connection for a participant and removing it again
    gives back the same set of connections: the connection made is the
    one closed, and the removal returns normally. *)
Theorem create_then_remove (ha : nat → bool) (uid : jsval) (st : client) :
  pc_lookup uid st = None →
  let st1 := (createPeerConnection uid st).1.1.1 in
  let res := removePeerConnection ha uid st1 in
  peerConnections res.1.1 = peerConnections st ∧
  last res.1.2 = Some (ClosePeerConnection (next_pc st)) ∧
  res.2 = Normal.
Proof.
  intros E. cbv zeta. rewrite createPeerConnection_absent by done. cbn [fst].
  apply pc_lookup_None in E as [E _].
  unfold removePeerConnection.
  erewrite pc_lookup_own; [|cbn; apply lookup_insert_eq].
  cbn [fst snd peerConnections with_peerConnections with_link pc_id].
  rewrite delete_insert_id by done. split_and!; [done| |done].
  by destruct (ha (next_pc st)).
Qed.

(** The round trip for [p2] at a client without connections. *)
Lemma create_then_remove_witness :
  peerConnections
    (removePeerConnection (λ _, true) (JStr "p2")
       (createPeerConnection (JStr "p2") in_lobby).1.1.1).1.1 = ∅.
Proof.
  apply (create_then_remove (λ _, true) (JStr "p2") in_lobby). reflexivity.
Defined.

Lemma made_updateUsersList users : made (updateUsersList users) = [].
Proof. unfold updateUsersList, made. simpl. by induction users. Qed.

Lemma asked_updateUsersList users : asked (updateUsersList users) = [].
Proof. unfold updateUsersList, asked. simpl. by induction users. Qed.

Lemma room_users_loop_names names st :
  let res := room_users_loop (JStr <$> names) st in
  dom (peerConnections res.1.1)
  = dom (peerConnections st)
    ∪ list_to_set (filter (λ k, k ≠ userId st ∧ k ∉ object_prototype_keys) names) ∧
  made res.1.2 = asked res.1.2 ∧
  omap offered res.2 = made res.1.2 ∧
  size (peerConnections res.1.1) = size (peerConnections st) + length res.2.
Proof.
  cbv zeta. revert st. induction names as [|k names IH]; intros st.
  - simpl. split_and!; [set_solver | done | done | lia].
  - rewrite fmap_cons. cbn [room_users_loop].
    destruct (decide (JStr k ≠ JStr (userId st))) as [Hne|Heq].
    + assert (k ≠ userId st) as Hk by congruence.
      destruct (pc_lookup (JStr k) st) as [r|] eqn:E.
      * rewrite (createPeerConnection_present (JStr k) r st E).
        specialize (IH st). destruct (room_users_loop (JStr <$> names) st)
          as [[st2 eff] tasks]. cbn [fst snd] in *.
        destruct IH as (Hdom & Hma & Hof & Hsz). split_and!; try done.
        rewrite Hdom. unfold pc_lookup in E. simpl in E.
        destruct (peerConnections st !! k) as [pc|] eqn:El.
        -- assert (k ∈ dom (peerConnections st)) by (apply elem_of_dom; eauto).
           destruct (decide (k ∉ object_prototype_keys)).
           ++ rewrite filter_cons_True by done. set_solver.
           ++ rewrite filter_cons_False by tauto. done.
        -- case_bool_decide; [|done]. rewrite filter_cons_False by tauto. done.
      * rewrite (createPeerConnection_absent (JStr k) st E). cbv zeta.
        apply pc_lookup_None in E as [El Hproto]. simpl in El, Hproto.
        set (pc := {| pc_id := next_pc st; pc_tracks := _ |}).
        specialize (IH (with_link k pc st)).
        change (prop_key (JStr k)) with k.
        destruct (room_users_loop (JStr <$> names) (with_link k pc st))
          as [[st2 eff] tasks]. cbn [fst snd] in *.
        destruct IH as (Hdom & Hma & Hof & Hsz). split_and!.
        -- rewrite Hdom. cbn [peerConnections userId with_link].
           rewrite dom_insert_L, filter_cons_True by done. set_solver.
        -- unfold made, asked in *. simpl. by f_equal.
        -- unfold made in *. simpl. by f_equal.
        -- rewrite Hsz. cbn [peerConnections with_link].
           rewrite map_size_insert_None by done. simpl. lia.
    + assert (k = userId st) as Hk.
      { destruct (decide (k = userId st)); [done|]. destruct Heq. congruence. }
      destruct (IH st) as (Hdom & Hma & Hof & Hsz). split_and!; try done.
      rewrite Hdom. rewrite filter_cons_False by tauto. done.
Qed.

(** X14. A roster of participant names gives the client a connection for
    exactly the names in it that are not its own and not names of members
    of [Object.prototype], besides the ones it had; each connection made
    is asked for an offer once, at once, and a name listed twice or
    already connected makes none. *)
Theorem room_users_links (names : list string) (st : client) :
  let res := on_room_users (JStr <$> names) st in
  dom (peerConnections res.1.1)
  = dom (peerConnections st)
    ∪ list_to_set (filter (λ k, k ≠ userId st ∧ k ∉ object_prototype_keys) names) ∧
  made res.1.2 = asked res.1.2 ∧
  omap offered res.2 = made res.1.2 ∧
  size (peerConnections res.1.1) = size (peerConnections st) + length res.2.
Proof.
  cbv zeta. pose proof (room_users_loop_names names st) as H. cbv zeta in H.
  unfold on_room_users.
  destruct (room_users_loop (JStr <$> names) st) as [[st2 eff] tasks].
  cbn [fst snd] in *. destruct H as (Hdom & Hma & Hof & Hsz).
  split_and!; try done.
  - unfold made, asked in *.
    rewrite !omap_app. fold (made (updateUsersList (JStr <$> names))).
    fold (asked (updateUsersList (JStr <$> names))).
    by rewrite made_updateUsersList, asked_updateUsersList.
  - unfold made in *. rewrite omap_app.
    fold (made (updateUsersList (JStr <$> names))).
    by rewrite made_updateUsersList.
Qed.

(** X15. An offer from a participant the client has no connection for is
    both countered and answered: the handler makes the connection, which
    asks for an offer of its own, and then answers the offer received, so
    with a browser that accepts every step the client sends that
    participant an offer and an answer. *)
Theorem offer_from_stranger (w : webrtc) (o : jsval) (uid : jsval) (st : client)
    (mine ans : string) :
  pc_lookup uid st = None →
  createOffer_result w (next_pc st) = Some mine →
  setLocalDescription_ok w (next_pc st) mine = true →
  setRemoteDescription_ok w (next_pc st) o = true →
  createAnswer_result w (next_pc st) = Some ans →
  setLocalDescription_ok w (next_pc st) ans = true →
  emits (settle w (on_offer o uid st))
  = [offer (roomId st) mine uid; answer (roomId st) ans uid].
Proof.
  intros E Ho Hl Hr Ha Hla. unfold on_offer, handleOffer, settle.
  rewrite createPeerConnection_absent by done. cbn.
  unfold createOffer_resume, handleOffer_resume. cbn.
  by rewrite Ho, Hl, Hr, Ha, Hla.
Qed.

(** An offer from [p2] at a client in [lobby] without connections. *)
Lemma offer_from_stranger_witness :
  emits (settle browser_ok (on_offer (JStr "remote") (JStr "p2") in_lobby))
  = [offer (Some "lobby") "sdp" (JStr "p2");
     answer (Some "lobby") "sdp-answer" (JStr "p2")].
Proof.
  apply (offer_from_stranger browser_ok (JStr "remote") (JStr "p2") in_lobby);
    reflexivity.
Defined.

(** X16. A candidate or an answer from a participant the client has no
    connection for is dropped without trace, while the same candidate
    arriving after that participant's offer is given to the connection the
    offer made. *)
Theorem candidate_before_offer_is_lost (w : webrtc) (add_ok : nat → jsval → bool)
    (c o a : jsval) (uid : jsval) (st : client) :
  pc_lookup uid st = None →
  handleIceCandidate add_ok c uid st = [] ∧
  handleAnswer w a uid st = [] ∧
  head (handleIceCandidate add_ok c uid (on_offer o uid st).1.1)
  = Some (RtcAddIceCandidate (next_pc st) c).
Proof.
  intros E. split_and!.
  - unfold handleIceCandidate. by rewrite E.
  - unfold handleAnswer. by rewrite E.
  - unfold on_offer, handleOffer. rewrite createPeerConnection_absent by done.
    cbn [fst]. unfold handleIceCandidate.
    set (pc := {| pc_id := next_pc st; pc_tracks := _ |}).
    rewrite (pc_lookup_own uid pc (with_link (prop_key uid) pc st));
      [done | cbn; apply lookup_insert_eq].
Qed.

(** A candidate from [p2] before and after its offer. *)
Lemma candidate_before_offer_is_lost_witness :
  handleIceCandidate (λ _ _, true) (JStr "c") (JStr "p2") in_lobby = [] ∧
  handleAnswer browser_ok (JStr "a") (JStr "p2") in_lobby = [] ∧
  head (handleIceCandidate (λ _ _, true) (JStr "c") (JStr "p2")
          (on_offer (JStr "remote") (JStr "p2") in_lobby).1.1)
  = Some (RtcAddIceCandidate 0 (JStr "c")).
Proof.
  apply (candidate_before_offer_is_lost browser_ok (λ _ _, true) (JStr "c")
           (JStr "remote") (JStr "a") (JStr "p2") in_lobby).
  reflexivity.
Defined.

(** X17. A participant whose id is the name of a member of
    [Object.prototype] never gets a connection: [user-connected] only
    lists it, its offer is logged as an error, and [user-disconnected]
    for it throws before the list is updated. *)
Theorem prototype_named_participant (ha : nat → bool) (o uid : jsval) (st : client) :
  prop_key uid ∈ object_prototype_keys →
  peerConnections st !! prop_key uid = None →
  on_user_connected uid st = (st, [AddUserToList uid], []) ∧
  on_offer o uid st = (st, [ConsoleError "Error handling offer:"], []) ∧
  on_user_disconnected ha uid st = (st, [], Threw).
Proof.
  intros Hin Hl.
  assert (pc_lookup uid st = Some PcInherited) as E.
  { unfold pc_lookup. by rewrite Hl, bool_decide_eq_true_2. }
  unfold on_user_connected, on_offer, handleOffer, on_user_disconnected,
    removePeerConnection.
  by rewrite (createPeerConnection_present uid PcInherited st E), E.
Qed.

(** The participant that calls itself [toString]. *)
Lemma prototype_named_participant_witness :
  on_user_connected (JStr "toString") in_lobby
  = (in_lobby, [AddUserToList (JStr "toString")], []) ∧
  on_offer (JStr "remote") (JStr "toString") in_lobby
  = (in_lobby, [ConsoleError "Error handling offer:"], []) ∧
  on_user_disconnected (λ _, false) (JStr "toString") in_lobby = (in_lobby, [], Threw).
Proof.
  apply (prototype_named_participant (λ _, false) (JStr "remote") (JStr "toString")
           in_lobby).
  - apply (bool_decide_unpack _). by vm_compute.
  - reflexivity.
Defined.

End ClientMore.

(** ** Which sessions a room holds *)

Module ServerSessions.
Import Server ServerSpec SessionSpec ServerRegistry ServerRelay ServerMore.














End ServerSessions.
